(** * CoNLL-X dataset reader ([datasets.py]): a shallow embedding

    The development follows the Python module top-down: the string
    primitives it relies on ([str.strip], [str.split]), the [ConllRow]
    named tuple, the sentence generator [_iterate_conll_sentences], the
    dataset class [ConllXDatasetPos] with its two static methods, and then
    the properties of each.

    Conventions.
    - A Python [str] is a [string]; a character is read as the code point
      of the same number (U+0000 to U+00FF).
    - A Python [int] is a [Z].
    - A raised exception is the [inl] side of a sum, see [exn].
    - A [dict] is an insertion-ordered association list with distinct keys,
      see [dict_wf]: the messages of [_validate_column_map] print keys and
      values in insertion order. *)

From Stdlib Require Import ZArith Ascii String.
From stdpp Require Import base tactics option list sorting.

Local Open Scope Z_scope.

(** ** Exceptions *)

(** The f-strings of [_validate_column_map]: a fixed text followed by the
    [repr] of a list of integers.  The text is determined by the
    constructor, the list is kept. *)
Inductive column_map_message : Type :=
| OutOfRangeIndices (indices : list Z)
    (* CoNLL-X has 10 fields 0...9; found out-of-range indices {indices} *)
| DestinationsNotUnique (values : list Z)
    (* Destinations in column mapping must be unique; found {values} *)
| DestinationsNotContiguous (sorted_values : list Z).
    (* Destinations in column mapping must be contiguous; found {sorted_values} *)

Inductive exn : Type :=
| TypeError (nargs : nat)
    (* ConllRow.__new__ called with nargs positional arguments, nargs <> 10 *)
| IndexError (index : Z)
    (* list index out of range *)
| KeyError (key : Z)
    (* d[key] for an absent key *)
| OSError (path : string)
    (* open(path) failed *)
| ValueError (msg : column_map_message).

Definition result (A : Type) : Type := exn + A.

Definition ret {A} (a : A) : result A := inr a.
Definition raise {A} (e : exn) : result A := inl e.
Definition bind {A B} (m : result A) (k : A -> result B) : result B :=
  match m with
  | inl e => inl e
  | inr a => k a
  end.

Notation "x <- m ;; k" := (bind m (fun x => k))
  (at level 100, m at next level, right associativity).

(** ** String primitives *)

(** [str.isspace] on the code points below 256: TAB..CR, FS..US, SPACE,
    NEL (U+0085) and NBSP (U+00A0). *)
Definition isspace (c : ascii) : bool :=
  let n := N_of_ascii c in
  ((9 <=? n) && (n <=? 13) || (28 <=? n) && (n <=? 32)
   || (n =? 133) || (n =? 160))%N.

Fixpoint lstrip (s : string) : string :=
  match s with
  | EmptyString => EmptyString
  | String c s' => if isspace c then lstrip s' else s
  end.

Fixpoint rstrip (s : string) : string :=
  match s with
  | EmptyString => EmptyString
  | String c s' =>
      match rstrip s' with
      | EmptyString => if isspace c then EmptyString else String c EmptyString
      | t => String c t
      end
  end.

(** [str.strip()] with no argument. *)
Definition strip (s : string) : string := rstrip (lstrip s).

(** [str.split(sep)] for a one-character separator: every occurrence of
    [sep] cuts, empty fields are kept, and the empty string gives one
    empty field. *)
Fixpoint split (sep : ascii) (s : string) : list string :=
  match s with
  | EmptyString => [EmptyString]
  | String c s' =>
      if Ascii.eqb c sep then EmptyString :: split sep s'
      else match split sep s' with
           | f :: fs => String c f :: fs
           | [] => [String c EmptyString]
           end
  end.

(** [c in s] for a character [c]. *)
Fixpoint occurs (c : ascii) (s : string) : bool :=
  match s with
  | EmptyString => false
  | String c' s' => Ascii.eqb c' c || occurs c s'
  end.

Definition _CONLL_SEPARATOR : ascii := "009"%char.

(** ** [ConllField] *)

Inductive ConllField : Type :=
| ID | FORM | LEMMA | UPOS | XPOS | FEATS | HEAD | DEPREL | DEPS | MISC.

(** The integer value of the [enum.IntEnum] member. *)
Definition ConllField_value (f : ConllField) : Z :=
  match f with
  | ID => 0 | FORM => 1 | LEMMA => 2 | UPOS => 3 | XPOS => 4
  | FEATS => 5 | HEAD => 6 | DEPREL => 7 | DEPS => 8 | MISC => 9
  end.

(** ** Dictionaries with integer keys and values *)

Definition dict : Type := list (Z * Z).

Definition dict_keys (d : dict) : list Z := d.*1.
Definition dict_values (d : dict) : list Z := d.*2.

(** [i in d] *)
Definition dict_contains (d : dict) (i : Z) : bool :=
  existsb (Z.eqb i) (dict_keys d).

(** The value stored under the key [i], if any. *)
Fixpoint dict_get (d : dict) (i : Z) : option Z :=
  match d with
  | [] => None
  | (k, v) :: d' => if Z.eqb i k then Some v else dict_get d' i
  end.

(** [d[i]] *)
Definition dict_getitem (d : dict) (i : Z) : result Z :=
  match dict_get d i with
  | Some v => ret v
  | None => raise (KeyError i)
  end.

(** [len(d)] *)
Definition dict_len (d : dict) : nat := length d.

(** The association lists that are dictionaries: no key occurs twice. *)
Definition dict_wf (d : dict) : Prop := NoDup (dict_keys d).

Definition _CONLL_POS_MAPPING : dict :=
  [(ConllField_value FORM, 0); (ConllField_value UPOS, 1)].

(** ** [ConllRow] *)

Module ConllRow.

Record t : Type := mk {
  id : string;
  form : string;
  lemma : string;
  upos : string;
  xpos : string;
  feats : string;
  head : string;
  deprel : string;
  deps : string;
  misc : string
}.

(** Iterating a named tuple gives its fields in declaration order. *)
Definition to_list (r : t) : list string :=
  [id r; form r; lemma r; upos r; xpos r; feats r; head r; deprel r;
   deps r; misc r].

(** The constructor call [cls] with unpacked arguments: the generated
    [__new__] takes exactly ten positional arguments and raises
    [TypeError] for any other number. *)
Definition new (args : list string) : result t :=
  match args with
  | [a0; a1; a2; a3; a4; a5; a6; a7; a8; a9] =>
      ret (mk a0 a1 a2 a3 a4 a5 a6 a7 a8 a9)
  | _ => raise (TypeError (length args))
  end.

(** [from_string]: the constructor applied to the unpacked
    [string.split(_CONLL_SEPARATOR)]. *)
Definition from_string (string : String.string) : result t :=
  new (split _CONLL_SEPARATOR string).

End ConllRow.

(** ** Generators *)

(** What a generator over a finite input does under successive [next]
    calls: it yields a value and goes on, returns ([StopIteration]) or
    raises.  The consumer sees the constructors one at a time, so an
    exception of the consumer at one [Yield] comes before anything the
    rest of the generator would do. *)
Inductive Iterator (A : Type) : Type :=
| StopIteration
| Yield (a : A) (next : Iterator A)
| Raise (e : exn).

Arguments StopIteration {A}.
Arguments Yield {A} a next.
Arguments Raise {A} e.

(** The values yielded before the generator returns or raises. *)
Fixpoint yielded {A} (it : Iterator A) : list A :=
  match it with
  | StopIteration => []
  | Yield a next => a :: yielded next
  | Raise _ => []
  end.

(** How the generator ends: [None] for a normal return. *)
Fixpoint raised {A} (it : Iterator A) : option exn :=
  match it with
  | StopIteration => None
  | Yield _ next => raised next
  | Raise e => Some e
  end.

(** Truth value of a [str]. *)
Definition str_bool (s : string) : bool :=
  match s with
  | EmptyString => false
  | String _ _ => true
  end.

(** Truth value of a [list]. *)
Definition list_bool {A} (l : list A) : bool :=
  match l with
  | [] => false
  | _ :: _ => true
  end.

(** The body of [_iterate_conll_sentences] from the [for] statement on,
    with the accumulator [rows] and the lines not yet read.  After
    [yield rows] the name is bound to a new list, so a yielded list is
    never appended to again and can be passed by value. *)
Fixpoint iterate_rows (rows : list ConllRow.t) (file : list string)
  : Iterator (list ConllRow.t) :=
  match file with
  | line :: file' =>
      let line := strip line in
      if str_bool line then
        match ConllRow.from_string line with
        | inl e => Raise e
        | inr row => iterate_rows (rows ++ [row]) file'
        end
      else Yield rows (iterate_rows [] file')
  | [] =>
      if list_bool rows then Yield rows StopIteration else StopIteration
  end.

Definition _iterate_conll_sentences (file : list string)
  : Iterator (list ConllRow.t) :=
  iterate_rows [] file.

(** ** The torchtext values this module builds *)

(** A field mapping [(name, field)] or [(None, None)]: the [data.Field]
    object is opaque to this module, its name is kept. *)
Definition FieldMapping : Type := option string.

(** Modelled from the spec: [data.Example.fromlist(data, fields)] belongs
    to torchtext, which is not part of the repository.  An example is the
    per-sentence columns tagged with the field schema (sections 3 and 4.4
    of the specification); the call is kept as a constructor holding its
    two arguments. *)
Inductive Example : Type :=
| Example_fromlist (data : list (list string)) (fields : list FieldMapping).

Definition Example_data (ex : Example) : list (list string) :=
  match ex with Example_fromlist data _ => data end.

Record Dataset : Type := mkDataset {
  examples : list Example;
  fields : list FieldMapping
}.

(** Modelled from the spec: [data.Dataset.__init__(examples, fields,
    filter_pred=None)] belongs to torchtext too.  It keeps, in order, the
    examples that satisfy the predicate, and all of them without one
    (section 4.4, steps 5 and 6). *)
Definition Dataset_init (examples : list Example)
    (fields : list FieldMapping) (filter_pred : option (Example -> bool))
  : Dataset :=
  mkDataset
    (match filter_pred with
     | Some p => List.filter p examples
     | None => examples
     end)
    fields.

(** ** List primitives *)

(** [enumerate(l)], counting from [start]. *)
Fixpoint enumerate_from {A} (start : Z) (l : list A) : list (Z * A) :=
  match l with
  | [] => []
  | x :: l' => (start, x) :: enumerate_from (start + 1) l'
  end.

Definition enumerate {A} (l : list A) : list (Z * A) := enumerate_from 0 l.

(** The position [l[d]] designates in a list of length [n]: negative
    indices count from the end, anything outside [-n, n) raises. *)
Definition list_index (n : nat) (d : Z) : result nat :=
  if (0 <=? d) && (d <? Z.of_nat n) then ret (Z.to_nat d)
  else if (- Z.of_nat n <=? d) && (d <? 0) then ret (Z.to_nat (Z.of_nat n + d))
  else raise (IndexError d).

(** [cols[d].append(v)] *)
Definition append_at (cols : list (list string)) (d : Z) (v : string)
  : result (list (list string)) :=
  j <- list_index (length cols) d ;;
  ret (alter (fun col => col ++ [v]) j cols).

(** [sorted(l)] on integers: the ascending rearrangement of [l]. *)
Definition sorted (l : list Z) : list Z := merge_sort Z.le l.

(** [sorted(set(l))] *)
Definition sorted_set (l : list Z) : list Z := sorted (remove_dups l).

(** [list(range(n))] *)
Definition range (n : nat) : list Z := seqZ 0 (Z.of_nat n).

(** ** [ConllXDatasetPos] *)

(** The file system as [open] sees it: the decoded lines of a readable
    path. *)
Definition filesystem : Type := string -> option (list string).

Inductive io_event : Type :=
| Opened (path : string)
| OpenFailed (path : string)
| Closed (path : string).

Module ConllXDatasetPos.

(** [0 <= x < 10] *)
Definition valid_index (x : Z) : bool := (0 <=? x) && (x <? 10).

Definition _validate_column_map (column_map : dict) : result unit :=
  if negb (forallb valid_index (dict_keys column_map)) then
    raise (ValueError (OutOfRangeIndices
      (List.filter (fun x => negb (valid_index x)) (dict_keys column_map))))
  else
    let values := dict_values column_map in
    if negb (bool_decide (sorted values = sorted_set values)) then
      raise (ValueError (DestinationsNotUnique values))
    else if negb (bool_decide (sorted values = range (length values))) then
      raise (ValueError (DestinationsNotContiguous (sorted values)))
    else ret tt.

(** The inner [for i, column_val in enumerate(row)] loop. *)
Fixpoint row_loop (column_mapping : dict) (fields : list (Z * string))
    (relevant_columns : list (list string)) : result (list (list string)) :=
  match fields with
  | [] => ret relevant_columns
  | (i, column_val) :: fields' =>
      if dict_contains column_mapping i then
        d <- dict_getitem column_mapping i ;;
        relevant_columns' <- append_at relevant_columns d column_val ;;
        row_loop column_mapping fields' relevant_columns'
      else row_loop column_mapping fields' relevant_columns
  end.

(** The outer [for row in sentence] loop. *)
Fixpoint sentence_loop (column_mapping : dict) (sentence : list ConllRow.t)
    (relevant_columns : list (list string)) : result (list (list string)) :=
  match sentence with
  | [] => ret relevant_columns
  | row :: sentence' =>
      relevant_columns' <-
        row_loop column_mapping (enumerate (ConllRow.to_list row))
          relevant_columns ;;
      sentence_loop column_mapping sentence' relevant_columns'
  end.

(** The list handed to [data.Example.fromlist]. *)
Definition relevant_columns (sentence : list ConllRow.t)
    (column_mapping : dict) : result (list (list string)) :=
  sentence_loop column_mapping sentence
    (replicate (dict_len column_mapping) []).

Definition _make_example (sentence : list ConllRow.t)
    (fields : list FieldMapping) (column_mapping : dict) : result Example :=
  cols <- relevant_columns sentence column_mapping ;;
  ret (Example_fromlist cols fields).

(** The [for sentence in _iterate_conll_sentences(input_file)] loop. *)
Fixpoint sentences_loop (fields : list FieldMapping) (column_mapping : dict)
    (sentences : Iterator (list ConllRow.t)) (examples : list Example)
  : result (list Example) :=
  match sentences with
  | StopIteration => ret examples
  | Raise e => raise e
  | Yield sentence next =>
      example <- _make_example sentence fields column_mapping ;;
      sentences_loop fields column_mapping next (examples ++ [example])
  end.

(** The constructor.  It returns the dataset or the exception, and the
    file operations it performed; the [with] statement closes the file on
    every way out of its body.  [filter_pred] is the one keyword argument
    [data.Dataset] reads from [kwargs]. *)
Definition __init__ (fs : filesystem) (path : string)
    (fields : list FieldMapping) (column_mapping : option dict)
    (filter_pred : option (Example -> bool))
  : result Dataset * list io_event :=
  let column_mapping := default _CONLL_POS_MAPPING column_mapping in
  let examples := [] in
  match fs path with
  | None => (raise (OSError path), [OpenFailed path])
  | Some input_file =>
      let body :=
        sentences_loop fields column_mapping
          (_iterate_conll_sentences input_file) examples in
      (examples' <- body ;; ret (Dataset_init examples' fields filter_pred),
       [Opened path; Closed path])
  end.

End ConllXDatasetPos.

(** ** Sample input: the file of [datasets_test.py] *)

Local Open Scope string_scope.
Local Open Scope list_scope.

(** [sep.join(l)] *)
Fixpoint join (sep : string) (l : list string) : string :=
  match l with
  | [] => ""
  | [x] => x
  | x :: l' => (x ++ sep ++ join sep l')%string
  end.

Definition TAB : string := String _CONLL_SEPARATOR "".
Definition NEWLINE : string := String "010"%char "".

(** A line of a file: the fields joined by tabs, and the line end. *)
Definition conll_line (fields : list string) : string :=
  (join TAB fields ++ NEWLINE)%string.

Definition line_No : string :=
  conll_line ["1"; "No"; "_"; "RB"; "RB"; "_"; "7"; "discourse"; "_"; "_"].
Definition line_Monday : string :=
  conll_line ["7"; "Monday"; "_"; "NNP"; "NNP"; "_"; "0"; "root"; "_"; "_"].
Definition line_But : string :=
  conll_line ["1"; "But"; "_"; "CC"; "CC"; "_"; "33"; "cc"; "_"; "_"].

(** The lines of [TEMPORARY_CONTENT] in [test_read_file]. *)
Definition TEMPORARY_CONTENT : list string :=
  [line_No;
   conll_line ["2"; ","; "_"; ","; ","; "_"; "7"; "punct"; "_"; "_"];
   conll_line ["3"; "it"; "_"; "PRP"; "PRP"; "_"; "7"; "nsubj"; "_"; "_"];
   conll_line ["4"; "was"; "_"; "VBD"; "VBD"; "_"; "7"; "cop"; "_"; "_"];
   conll_line ["5"; "n't"; "_"; "RB"; "RB"; "_"; "7"; "neg"; "_"; "_"];
   conll_line ["6"; "Black"; "_"; "NNP"; "NNP"; "_"; "7"; "nn"; "_"; "_"];
   line_Monday;
   conll_line ["8"; "."; "_"; "."; "."; "_"; "7"; "punct"; "_"; "_"];
   NEWLINE;
   line_But].

(** A line of two fields only. *)
Definition line_short : string := conll_line ["1"; "But"].

Definition row_No : ConllRow.t :=
  ConllRow.mk "1" "No" "_" "RB" "RB" "_" "7" "discourse" "_" "_".
Definition row_Monday : ConllRow.t :=
  ConllRow.mk "7" "Monday" "_" "NNP" "NNP" "_" "0" "root" "_" "_".
Definition row_But : ConllRow.t :=
  ConllRow.mk "1" "But" "_" "CC" "CC" "_" "33" "cc" "_" "_".

(** [_make_fields()], by name. *)
Definition _make_fields : list FieldMapping := [Some "word"; Some "pos"; None].

(** ** Notions of the specification *)

(** A blank line: nothing is left of it after stripping. *)
Definition blank (line : string) : bool := negb (str_bool (strip line)).

(** The number of maximal runs of non-blank lines; [in_block] tells
    whether the previous line was non-blank. *)
Fixpoint count_blocks_from (in_block : bool) (file : list string) : nat :=
  match file with
  | [] => 0
  | line :: file' =>
      if blank line then count_blocks_from false file'
      else ((if in_block then 0 else 1) + count_blocks_from true file')%nat
  end.

Definition count_blocks (file : list string) : nat :=
  count_blocks_from false file.

(** The rows of the non-blank lines, when all of them parse. *)
Definition parses_to (file : list string) (rows : list ConllRow.t) : Prop :=
  Forall2 (fun line row => ConllRow.from_string line = inr row)
    (List.filter str_bool (map strip file)) rows.

(** A line the row parser refuses: not blank, and not ten fields once
    stripped. *)
Definition malformed (line : string) : Prop :=
  blank line = false /\
  length (split _CONLL_SEPARATOR (strip line)) <> 10%nat.

(** The three invariants of a column mapping. *)
Definition keys_in_range (cm : dict) : Prop :=
  Forall (fun x => 0 <= x < 10) (dict_keys cm).

Definition destinations_unique (cm : dict) : Prop :=
  NoDup (dict_values cm).

Definition destinations_contiguous (cm : dict) : Prop :=
  forall v, v ∈ dict_values cm <-> 0 <= v < Z.of_nat (dict_len cm).

Definition validated (cm : dict) : Prop :=
  keys_in_range cm /\ destinations_unique cm /\ destinations_contiguous cm.

(** [row[i]] for an index in [0, 10). *)
Definition ConllRow_get (row : ConllRow.t) (i : Z) : string :=
  nth (Z.to_nat i) (ConllRow.to_list row) "".

(** Two rows agree on every field the mapping reads. *)
Definition agree_on (cm : dict) (row1 row2 : ConllRow.t) : Prop :=
  forall i, i ∈ dict_keys cm -> ConllRow_get row1 i = ConllRow_get row2 i.

(** The values among the enumerated fields of one row that the mapping
    sends to column [d], in field order. *)
Fixpoint sent_to (cm : dict) (d : Z) (fields : list (Z * string))
  : list string :=
  match fields with
  | [] => []
  | (i, v) :: fields' =>
      if decide (dict_get cm i = Some d) then v :: sent_to cm d fields'
      else sent_to cm d fields'
  end.

(** ** Further notions *)

(** [s.count(c)] for a character [c]. *)
Fixpoint count (c : ascii) (s : string) : nat :=
  match s with
  | EmptyString => 0
  | String c' s' => ((if Ascii.eqb c' c then 1 else 0) + count c s')%nat
  end.

(** [s.isspace()] or [s] empty: nothing but whitespace. *)
Fixpoint all_space (s : string) : bool :=
  match s with
  | EmptyString => true
  | String c s' => isspace c && all_space s'
  end.

(** The attribute of a row that carries the name of an enumeration
    member. *)
Definition ConllField_attr (f : ConllField) : ConllRow.t -> string :=
  match f with
  | ID => ConllRow.id | FORM => ConllRow.form | LEMMA => ConllRow.lemma
  | UPOS => ConllRow.upos | XPOS => ConllRow.xpos | FEATS => ConllRow.feats
  | HEAD => ConllRow.head | DEPREL => ConllRow.deprel
  | DEPS => ConllRow.deps | MISC => ConllRow.misc
  end.

(** No blank line at the start of the file or right after a blank line;
    [after_blank] tells whether the previous line was blank (or there is
    none). *)
Fixpoint single_spaced_from (after_blank : bool) (file : list string) : bool :=
  match file with
  | [] => true
  | line :: file' =>
      if blank line then negb after_blank && single_spaced_from true file'
      else single_spaced_from false file'
  end.

Definition single_spaced (file : list string) : bool :=
  single_spaced_from true file.

(** The position a destination [d] designates among [k] columns when it
    is negative and not below [-k]; other destinations are left alone. *)
Definition normalize_destination (k : nat) (d : Z) : Z :=
  if ((- Z.of_nat k <=? d) && (d <? 0))%Z then (Z.of_nat k + d)%Z else d.

Definition normalize_destinations (cm : dict) : dict :=
  map (fun kv => (kv.1, normalize_destination (dict_len cm) kv.2)) cm.

(** Side conditions on a literal mapping. *)
Ltac invariant_by_computation :=
  unfold dict_wf, keys_in_range, destinations_unique; compute_done.

Ltac contiguous_by_cases :=
  let v := fresh "v" in
  intros v; simpl; rewrite ?elem_of_cons, ?elem_of_nil; lia.

(** * Properties *)

(** ** The row parser *)

Lemma split_nonempty sep s : split sep s <> [].
Proof.
  destruct s as [|c s]; simpl; [done|].
  destruct (Ascii.eqb c sep); [done|].
  by destruct (split sep s).
Qed.

(** Joining the fields with the separator gives the line back. *)
Lemma join_split sep s : join (String sep "") (split sep s) = s.
Proof.
  induction s as [|c s IH]; simpl; [done|].
  destruct (Ascii.eqb_spec c sep) as [->|Hne].
  - pose proof (split_nonempty sep s) as Hs.
    destruct (split sep s) as [|f fs]; [done|].
    simpl in *. by rewrite IH.
  - pose proof (split_nonempty sep s) as Hs.
    destruct (split sep s) as [|f fs]; [done|].
    destruct fs as [|g fs]; simpl in *; by rewrite <- IH.
Qed.

(** No field contains the separator. *)
Lemma split_no_separator sep s :
  Forall (fun f => occurs sep f = false) (split sep s).
Proof.
  induction s as [|c s IH]; simpl; [by repeat constructor|].
  destruct (Ascii.eqb_spec c sep) as [->|Hne].
  - by constructor.
  - pose proof (split_nonempty sep s) as Hs.
    destruct (split sep s) as [|f fs]; [done|].
    inversion IH; subst. constructor; [|done].
    simpl. destruct (Ascii.eqb_spec c sep); [done|]. done.
Qed.

Lemma new_ten args :
  length args = 10%nat ->
  exists r, ConllRow.new args = inr r /\ ConllRow.to_list r = args.
Proof.
  intros Hlen.
  do 10 (destruct args as [|? args]; [discriminate Hlen|]).
  destruct args; [|discriminate Hlen].
  eexists; split; reflexivity.
Qed.

Lemma new_not_ten args :
  length args <> 10%nat -> ConllRow.new args = inl (TypeError (length args)).
Proof.
  intros Hlen.
  do 10 (destruct args as [|? args]; [reflexivity|]).
  destruct args; [done|reflexivity].
Qed.

(** C5: [ConllRow.from_string] splits its argument on the tab character;
    when that gives exactly ten fields it returns the record holding them
    in positional order (id, form, lemma, upos, xpos, feats, head, deprel,
    deps, misc), and for any other number of fields it raises (a
    [TypeError]) instead of returning a record.  This holds for every
    string, blank or not. *)
Theorem from_string_ten_fields_or_error (line : string) :
  (length (split _CONLL_SEPARATOR line) = 10%nat ->
   exists r, ConllRow.from_string line = inr r /\
     [ConllRow.id r; ConllRow.form r; ConllRow.lemma r; ConllRow.upos r;
      ConllRow.xpos r; ConllRow.feats r; ConllRow.head r; ConllRow.deprel r;
      ConllRow.deps r; ConllRow.misc r] = split _CONLL_SEPARATOR line) /\
  (length (split _CONLL_SEPARATOR line) <> 10%nat ->
   ConllRow.from_string line =
     inl (TypeError (length (split _CONLL_SEPARATOR line)))).
Proof.
  split; intros Hlen.
  - destruct (new_ten _ Hlen) as (r & Hr & Hfields). by exists r.
  - by apply new_not_ten.
Qed.

Lemma from_string_ten_fields_or_error_witness :
  (exists r, ConllRow.from_string (strip line_But) = inr r /\
     [ConllRow.id r; ConllRow.form r; ConllRow.lemma r; ConllRow.upos r;
      ConllRow.xpos r; ConllRow.feats r; ConllRow.head r; ConllRow.deprel r;
      ConllRow.deps r; ConllRow.misc r] =
     ["1"; "But"; "_"; "CC"; "CC"; "_"; "33"; "cc"; "_"; "_"]) /\
  ConllRow.from_string (strip line_short) = inl (TypeError 2).
Proof.
  split.
  - apply (proj1 (from_string_ten_fields_or_error (strip line_But))).
    reflexivity.
  - apply (proj2 (from_string_ten_fields_or_error (strip line_short))).
    vm_compute. discriminate.
Defined.

(** ** The sentence grouper *)

Lemma blank_false_str_bool line : blank line = false -> str_bool (strip line) = true.
Proof. unfold blank. by destruct (str_bool (strip line)). Qed.

Lemma blank_true_str_bool line : blank line = true -> str_bool (strip line) = false.
Proof. unfold blank. by destruct (str_bool (strip line)). Qed.

(** A blank line makes the generator yield the accumulator as it is,
    empty or not. *)
Lemma iterate_rows_blank rows line file :
  blank line = true ->
  iterate_rows rows (line :: file) = Yield rows (iterate_rows [] file).
Proof. intros Hb. simpl. by rewrite (blank_true_str_bool _ Hb). Qed.

Lemma iterate_rows_row rows line row file :
  blank line = false ->
  ConllRow.from_string (strip line) = inr row ->
  iterate_rows rows (line :: file) = iterate_rows (rows ++ [row]) file.
Proof. intros Hb Hrow. simpl. by rewrite (blank_false_str_bool _ Hb), Hrow. Qed.

Lemma iterate_rows_malformed rows line e file :
  blank line = false ->
  ConllRow.from_string (strip line) = inl e ->
  iterate_rows rows (line :: file) = Raise e.
Proof. intros Hb Hrow. simpl. by rewrite (blank_false_str_bool _ Hb), Hrow. Qed.

(** C2: the claim says that no yielded group is empty.  The generator
    yields on every blank line without looking at the accumulator, so a
    leading blank line, or the second of two blank lines in a row, yields
    the empty list; only the yield at the end of the input is guarded by
    [if rows].  Here the input is a blank line followed by one token. *)
Theorem leading_blank_line_yields_empty_sentence :
  yielded (_iterate_conll_sentences [NEWLINE; line_But]) = [[]; [row_But]].
Proof. reflexivity. Qed.

(** C3: the claim says that the number of yielded sentences is the number
    of blocks of non-blank lines.  Two tokens separated by two blank lines
    are two blocks, and the generator yields three lists, the second of
    them empty. *)
Theorem two_blank_lines_yield_three_sentences :
  count_blocks [line_No; NEWLINE; NEWLINE; line_But] = 2%nat /\
  yielded (_iterate_conll_sentences [line_No; NEWLINE; NEWLINE; line_But])
    = [[row_No]; []; [row_But]].
Proof. split; reflexivity. Qed.

(** What does hold on the number of sentences: when every non-blank line
    parses, the non-empty lists among the yielded ones are as many as the
    blocks of non-blank lines. *)
Lemma nonempty_yields_count_blocks file : forall acc rows,
  parses_to file rows ->
  length (List.filter list_bool (yielded (iterate_rows acc file))) =
  ((if list_bool acc then 1 else 0) +
   count_blocks_from (list_bool acc) file)%nat.
Proof.
  unfold parses_to.
  induction file as [|line file IH]; intros acc rows Hrows; simpl in *.
  - by destruct acc.
  - unfold blank. destruct (str_bool (strip line)) eqn:Hline; simpl.
    + inversion Hrows as [|? row ? rows' Hrow Hrest]; subst.
      rewrite Hrow, (IH (acc ++ [row]) rows' Hrest).
      destruct acc; simpl; lia.
    + destruct acc; simpl; by rewrite (IH [] rows Hrows).
Qed.

Lemma iterate_rows_concat file : forall acc rows,
  parses_to file rows ->
  raised (iterate_rows acc file) = None /\
  concat (yielded (iterate_rows acc file)) = acc ++ rows.
Proof.
  unfold parses_to.
  induction file as [|line file IH]; intros acc rows Hrows; simpl in *.
  - inversion Hrows; subst.
    destruct acc; simpl; by rewrite ?app_nil_r.
  - destruct (str_bool (strip line)) eqn:Hline.
    + inversion Hrows as [|? row ? rows' Hrow Hrest]; subst.
      rewrite Hrow.
      destruct (IH (acc ++ [row]) rows' Hrest) as [Hnone Hcat].
      split; [done|]. by rewrite Hcat, <- app_assoc.
    + destruct (IH [] rows Hrows) as [Hnone Hcat].
      split; [done|]. simpl. by rewrite Hcat.
Qed.

(** C9: when every non-blank line parses, the generator runs to its end
    without raising, and the lists it yields, concatenated in yield order,
    are the rows parsed from the stripped non-blank lines in input order:
    no row is dropped, repeated or moved, wherever the blank lines are. *)
Theorem yielded_rows_are_the_parsed_lines (file : list string)
    (rows : list ConllRow.t) :
  Forall2 (fun line row => ConllRow.from_string line = inr row)
    (List.filter str_bool (map strip file)) rows ->
  raised (_iterate_conll_sentences file) = None /\
  concat (yielded (_iterate_conll_sentences file)) = rows.
Proof.
  intros Hrows. apply (iterate_rows_concat file [] rows Hrows).
Qed.

Lemma yielded_rows_are_the_parsed_lines_witness :
  raised (_iterate_conll_sentences
            [NEWLINE; line_No; line_Monday; NEWLINE; NEWLINE; line_But])
    = None /\
  concat (yielded (_iterate_conll_sentences
            [NEWLINE; line_No; line_Monday; NEWLINE; NEWLINE; line_But]))
    = [row_No; row_Monday; row_But].
Proof.
  apply (yielded_rows_are_the_parsed_lines
           [NEWLINE; line_No; line_Monday; NEWLINE; NEWLINE; line_But]
           [row_No; row_Monday; row_But]).
  repeat constructor.
Defined.

(** ** Validation of a column mapping *)

Lemma sorted_Permutation l : sorted l ≡ₚ l.
Proof. apply merge_sort_Permutation. Qed.

Lemma sorted_Sorted l : Sorted Z.le (sorted l).
Proof. apply (Sorted_merge_sort Z.le). Qed.

(** Sorting forgets the order of a list and nothing else. *)
Lemma sorted_eq_iff l1 l2 : sorted l1 = sorted l2 <-> l1 ≡ₚ l2.
Proof.
  split; intros H.
  - by rewrite <- (sorted_Permutation l1), H, sorted_Permutation.
  - apply (Sorted_unique Z.le); [apply sorted_Sorted..|].
    by rewrite !sorted_Permutation.
Qed.

Lemma remove_dups_NoDup (l : list Z) : NoDup l -> remove_dups l = l.
Proof.
  induction 1 as [|x l Hx Hl IH]; simpl; [done|].
  destruct (decide_rel elem_of x l); [done|]. by rewrite IH.
Qed.

(** The uniqueness test of the validator passes exactly on the lists
    without repetition. *)
Lemma sorted_set_iff l : sorted l = sorted_set l <-> NoDup l.
Proof.
  unfold sorted_set. rewrite sorted_eq_iff. split; intros H.
  - rewrite H. apply NoDup_remove_dups.
  - by rewrite (remove_dups_NoDup l H).
Qed.

Lemma Sorted_seqZ n : forall m, Sorted Z.le (seqZ m (Z.of_nat n)).
Proof.
  induction n as [|n IH]; intros m.
  - rewrite seqZ_nil by lia. constructor.
  - rewrite seqZ_cons by lia.
    replace (Z.pred (Z.of_nat (S n))) with (Z.of_nat n) by lia.
    constructor; [apply IH|].
    destruct n as [|n].
    + rewrite seqZ_nil by lia. constructor.
    + rewrite seqZ_cons by lia. constructor. lia.
Qed.

Lemma elem_of_range n v : v ∈ range n <-> 0 <= v < Z.of_nat n.
Proof. unfold range. rewrite elem_of_seqZ. lia. Qed.

(** The contiguity test of the validator, on a list without repetition. *)
Lemma sorted_range_iff l :
  NoDup l ->
  sorted l = range (length l) <->
  (forall v, v ∈ l <-> 0 <= v < Z.of_nat (length l)).
Proof.
  intros Hnd. split.
  - intros Heq v. rewrite <- elem_of_range, <- Heq.
    by rewrite sorted_Permutation.
  - intros Hall.
    apply (Sorted_unique Z.le); [apply sorted_Sorted|apply Sorted_seqZ|].
    rewrite sorted_Permutation.
    apply NoDup_Permutation; [done|apply NoDup_seqZ|].
    intros v. by rewrite Hall, elem_of_range.
Qed.

Lemma forallb_valid_index keys :
  forallb ConllXDatasetPos.valid_index keys = true <->
  Forall (fun x => 0 <= x < 10) keys.
Proof.
  rewrite forallb_forall, Forall_forall.
  unfold ConllXDatasetPos.valid_index.
  split; intros H x Hx.
  - apply list_elem_of_In, H in Hx. lia.
  - apply list_elem_of_In, H in Hx. lia.
Qed.

Lemma filter_invalid_nonempty keys :
  ~ Forall (fun x => 0 <= x < 10) keys ->
  List.filter (fun x => negb (ConllXDatasetPos.valid_index x)) keys <> [].
Proof.
  intros Hnot Hnil. apply Hnot, Forall_forall. intros x Hx.
  destruct (ConllXDatasetPos.valid_index x) eqn:Hv.
  - unfold ConllXDatasetPos.valid_index in Hv. lia.
  - assert (In x (List.filter
      (fun x => negb (ConllXDatasetPos.valid_index x)) keys)) as Hin.
    { apply filter_In. split; [by apply list_elem_of_In|by rewrite Hv]. }
    rewrite Hnil in Hin. destruct Hin.
Qed.

(** The four ways through [_validate_column_map], each with the condition
    that selects it. *)
Lemma validate_column_map_cases (cm : dict) :
  (~ keys_in_range cm /\
   ConllXDatasetPos._validate_column_map cm =
     inl (ValueError (OutOfRangeIndices
       (List.filter (fun x => negb (ConllXDatasetPos.valid_index x))
          (dict_keys cm))))) \/
  (keys_in_range cm /\ ~ destinations_unique cm /\
   ConllXDatasetPos._validate_column_map cm =
     inl (ValueError (DestinationsNotUnique (dict_values cm)))) \/
  (keys_in_range cm /\ destinations_unique cm /\
   ~ destinations_contiguous cm /\
   ConllXDatasetPos._validate_column_map cm =
     inl (ValueError (DestinationsNotContiguous (sorted (dict_values cm))))) \/
  (keys_in_range cm /\ destinations_unique cm /\
   destinations_contiguous cm /\
   ConllXDatasetPos._validate_column_map cm = inr tt).
Proof.
  unfold ConllXDatasetPos._validate_column_map, keys_in_range,
    destinations_unique, destinations_contiguous, dict_len.
  destruct (forallb ConllXDatasetPos.valid_index (dict_keys cm)) eqn:Hkeys;
    simpl.
  - apply forallb_valid_index in Hkeys.
    case_bool_decide as Huniq; simpl.
    + apply sorted_set_iff in Huniq.
      pose proof (sorted_range_iff _ Huniq) as Hrange.
      unfold dict_values in *. rewrite length_fmap in Hrange.
      rewrite length_fmap.
      case_bool_decide as Hcontig; simpl.
      * right; right; right. by rewrite <- Hrange.
      * right; right; left. by rewrite <- Hrange.
    + right; left. by rewrite <- sorted_set_iff.
  - left. split; [|done].
    rewrite <- forallb_valid_index, Hkeys. discriminate.
Qed.

Lemma elem_of_filter_invalid keys x :
  x ∈ List.filter (fun x => negb (ConllXDatasetPos.valid_index x)) keys <->
  x ∈ keys /\ ~ 0 <= x < 10.
Proof.
  rewrite !list_elem_of_In, filter_In.
  unfold ConllXDatasetPos.valid_index. split; intros [Hin Hx]; (split; [done|lia]).
Qed.

(** C4: [_validate_column_map] raises exactly when one of the three
    invariants fails (a key outside [0,9], a destination occurring twice,
    destinations other than 0..k-1 for k the number of keys).  The message
    of the [ValueError] carries, for the first check, the keys that are
    out of range, in the order of the mapping; for the second, the list of
    destinations; for the third, the sorted list of destinations.  A
    mapping with the three invariants passes. *)
Theorem validate_column_map_raises_iff_invariant_fails (cm : dict) :
  ((exists e, ConllXDatasetPos._validate_column_map cm = inl e) <->
   ~ keys_in_range cm \/ ~ destinations_unique cm \/
   ~ destinations_contiguous cm) /\
  (~ keys_in_range cm ->
   exists indices,
     ConllXDatasetPos._validate_column_map cm =
       inl (ValueError (OutOfRangeIndices indices)) /\
     indices =
       List.filter (fun x => negb (ConllXDatasetPos.valid_index x))
         (dict_keys cm) /\
     indices <> [] /\
     forall x, x ∈ indices <-> x ∈ dict_keys cm /\ ~ 0 <= x < 10) /\
  (keys_in_range cm -> ~ destinations_unique cm ->
   ConllXDatasetPos._validate_column_map cm =
     inl (ValueError (DestinationsNotUnique (dict_values cm)))) /\
  (keys_in_range cm -> destinations_unique cm ->
   ~ destinations_contiguous cm ->
   ConllXDatasetPos._validate_column_map cm =
     inl (ValueError (DestinationsNotContiguous (sorted (dict_values cm))))) /\
  (keys_in_range cm -> destinations_unique cm ->
   destinations_contiguous cm ->
   ConllXDatasetPos._validate_column_map cm = inr tt).
Proof.
  destruct (validate_column_map_cases cm)
    as [[Hk Hv]|[(Hk & Hu & Hv)|[(Hk & Hu & Hc & Hv)|(Hk & Hu & Hc & Hv)]]];
    rewrite Hv.
  - split; [split; [tauto|eauto]|].
    split; [|repeat split; intros; tauto].
    intros _. eexists. split; [reflexivity|]. split; [reflexivity|].
    split; [by apply filter_invalid_nonempty|].
    intros x. apply elem_of_filter_invalid.
  - split; [split; [tauto|eauto]|].
    repeat split; intros; solve [tauto | reflexivity].
  - split; [split; [tauto|eauto]|].
    repeat split; intros; solve [tauto | reflexivity].
  - split; [split; [intros [e He]; discriminate He|tauto]|].
    repeat split; intros; solve [tauto | reflexivity].
Qed.

Lemma validate_column_map_raises_iff_invariant_fails_witness :
  ConllXDatasetPos._validate_column_map [(1, 0); (10, 1); (-1, 2)] =
    inl (ValueError (OutOfRangeIndices [10; -1])) /\
  ConllXDatasetPos._validate_column_map [(1, 0); (3, 0)] =
    inl (ValueError (DestinationsNotUnique [0; 0])) /\
  ConllXDatasetPos._validate_column_map [(1, 2); (3, 0)] =
    inl (ValueError (DestinationsNotContiguous [0; 2])) /\
  ConllXDatasetPos._validate_column_map [(3, 1); (1, 0); (7, 2)] = inr tt.
Proof.
  split; [|split; [|split]].
  - destruct (proj1 (proj2
      (validate_column_map_raises_iff_invariant_fails
         [(1, 0); (10, 1); (-1, 2)]))) as (indices & Hv & -> & _).
    + invariant_by_computation.
    + exact Hv.
  - apply (proj1 (proj2 (proj2
      (validate_column_map_raises_iff_invariant_fails [(1, 0); (3, 0)])))).
    + invariant_by_computation.
    + invariant_by_computation.
  - apply (proj1 (proj2 (proj2 (proj2
      (validate_column_map_raises_iff_invariant_fails [(1, 2); (3, 0)]))))).
    + invariant_by_computation.
    + invariant_by_computation.
    + intros H. specialize (H 1). simpl in H.
      rewrite !elem_of_cons, elem_of_nil in H. lia.
  - apply (proj2 (proj2 (proj2 (proj2
      (validate_column_map_raises_iff_invariant_fails
         [(3, 1); (1, 0); (7, 2)]))))).
    + invariant_by_computation.
    + invariant_by_computation.
    + contiguous_by_cases.
Defined.

(** ** Application of a column mapping *)

Lemma dict_get_Some cm i d :
  dict_get cm i = Some d -> i ∈ dict_keys cm /\ d ∈ dict_values cm.
Proof.
  unfold dict_keys, dict_values.
  induction cm as [|[k v] cm IH]; simpl; [done|].
  destruct (Z.eqb_spec i k) as [->|Hne].
  - intros [= ->]. split; apply list_elem_of_here.
  - intros H. destruct (IH H). split; by apply list_elem_of_further.
Qed.

Lemma dict_get_None cm i : dict_get cm i = None -> i ∉ dict_keys cm.
Proof.
  unfold dict_keys.
  induction cm as [|[k v] cm IH]; simpl; [intros _; apply not_elem_of_nil|].
  destruct (Z.eqb_spec i k) as [->|Hne]; [done|].
  intros H. apply not_elem_of_cons. split; [done|by apply IH].
Qed.

(** [i in cm] is [dict_get cm i] being defined. *)
Lemma dict_get_is_Some cm i : i ∈ dict_keys cm <-> is_Some (dict_get cm i).
Proof.
  split.
  - intros Hin. destruct (dict_get cm i) eqn:Hget; [by eexists|].
    by apply dict_get_None in Hget.
  - intros [d Hd]. by apply dict_get_Some in Hd as [? _].
Qed.

(** In a dictionary every stored value is the value of its key. *)
Lemma dict_values_get cm d :
  dict_wf cm -> d ∈ dict_values cm -> exists i, dict_get cm i = Some d.
Proof.
  unfold dict_wf, dict_keys, dict_values.
  induction cm as [|[k v] cm IH]; simpl; intros Hwf Hd.
  - by apply elem_of_nil in Hd.
  - apply NoDup_cons in Hwf as [Hk Hwf].
    apply elem_of_cons in Hd as [->|Hd].
    + exists k. by rewrite Z.eqb_refl.
    + destruct (IH Hwf Hd) as [i Hi]. exists i.
      destruct (Z.eqb_spec i k) as [->|Hne]; [|done].
      by apply dict_get_Some in Hi as [? _].
Qed.

(** With distinct destinations, a destination has one key. *)
Lemma dict_get_inj cm i i' d :
  destinations_unique cm ->
  dict_get cm i = Some d -> dict_get cm i' = Some d -> i = i'.
Proof.
  unfold destinations_unique, dict_values.
  induction cm as [|[k v] cm IH]; simpl; [done|].
  intros [Hv Hnd]%NoDup_cons.
  destruct (Z.eqb_spec i k) as [->|Hne], (Z.eqb_spec i' k) as [->|Hne'];
    try done.
  - intros [= ->] Hi'. by apply dict_get_Some in Hi' as [_ ?].
  - intros Hi [= ->]. by apply dict_get_Some in Hi as [_ ?].
  - by apply IH.
Qed.

Lemma dict_contains_get cm i :
  dict_contains cm i = bool_decide (is_Some (dict_get cm i)).
Proof.
  unfold dict_contains, dict_keys.
  induction cm as [|[k v] cm IH]; simpl; [done|].
  by destruct (Z.eqb_spec i k).
Qed.

(** The two ways through the body of the inner loop. *)
Lemma row_loop_mapped cm i v d fields cols :
  dict_get cm i = Some d ->
  ConllXDatasetPos.row_loop cm ((i, v) :: fields) cols =
  (cols' <- append_at cols d v ;; ConllXDatasetPos.row_loop cm fields cols').
Proof.
  intros Hget. cbn [ConllXDatasetPos.row_loop].
  rewrite dict_contains_get. unfold dict_getitem. rewrite Hget.
  by rewrite bool_decide_eq_true_2 by by eexists.
Qed.

Lemma row_loop_unmapped cm i v fields cols :
  dict_get cm i = None ->
  ConllXDatasetPos.row_loop cm ((i, v) :: fields) cols =
  ConllXDatasetPos.row_loop cm fields cols.
Proof.
  intros Hget. cbn [ConllXDatasetPos.row_loop].
  rewrite dict_contains_get, Hget.
  by rewrite bool_decide_eq_false_2 by by intros [? [=]].
Qed.

Lemma list_index_in_range n d :
  0 <= d < Z.of_nat n -> list_index n d = inr (Z.to_nat d).
Proof.
  intros Hd. unfold list_index.
  destruct (Z.leb_spec 0 d), (Z.ltb_spec d (Z.of_nat n)); simpl; try lia.
  done.
Qed.

(** One row appends to column [j] the values sent to [j], provided every
    destination is a position of the column list. *)
Lemma row_loop_appends cm fields : forall cols,
  (forall i d, dict_get cm i = Some d -> 0 <= d < Z.of_nat (length cols)) ->
  exists cols',
    ConllXDatasetPos.row_loop cm fields cols = inr cols' /\
    length cols' = length cols /\
    forall j : nat,
      cols' !! j = (fun col => col ++ sent_to cm (Z.of_nat j) fields) <$> cols !! j.
Proof.
  induction fields as [|[i v] fields IH]; intros cols Hrange.
  - exists cols. split; [done|]. split; [done|].
    intros j. destruct (cols !! j); simpl; by rewrite ?app_nil_r.
  - cbn [sent_to]. destruct (dict_get cm i) as [d|] eqn:Hget.
    + rewrite (row_loop_mapped _ _ _ _ _ _ Hget).
      pose proof (Hrange i d Hget) as Hd.
      unfold append_at. rewrite (list_index_in_range _ _ Hd). cbn [bind ret].
      set (cols1 := alter (fun col => col ++ [v]) (Z.to_nat d) cols).
      destruct (IH cols1) as (cols' & Hrun & Hlen & Hcols).
      { intros i' d' Hget'. unfold cols1. rewrite length_alter. eauto. }
      exists cols'. split; [done|]. split.
      { rewrite Hlen. unfold cols1. by rewrite length_alter. }
      intros j. rewrite Hcols. unfold cols1.
      destruct (decide (Z.to_nat d = j)) as [<-|Hne].
      * rewrite list_lookup_alter_eq.
        rewrite Z2Nat.id by lia.
        rewrite decide_True by done.
        destruct (cols !! Z.to_nat d); simpl; [|done].
        by rewrite <- app_assoc.
      * rewrite list_lookup_alter_ne by done.
        rewrite decide_False; [done|]. intros [= ->]. lia.
    + rewrite (row_loop_unmapped _ _ _ _ _ Hget).
      destruct (IH cols Hrange) as (cols' & Hrun & Hlen & Hcols).
      exists cols'. split; [done|]. split; [done|].
      intros j. rewrite Hcols. by rewrite decide_False.
Qed.

(** The same for a sentence, row after row. *)
Lemma sentence_loop_appends cm sentence : forall cols,
  (forall i d, dict_get cm i = Some d -> 0 <= d < Z.of_nat (length cols)) ->
  exists cols',
    ConllXDatasetPos.sentence_loop cm sentence cols = inr cols' /\
    length cols' = length cols /\
    forall j : nat,
      cols' !! j =
        (fun col => col ++
           concat (map (fun row =>
             sent_to cm (Z.of_nat j) (enumerate (ConllRow.to_list row)))
             sentence))
        <$> cols !! j.
Proof.
  induction sentence as [|row sentence IH]; intros cols Hrange.
  - exists cols. split; [done|]. split; [done|].
    intros j. destruct (cols !! j); simpl; by rewrite ?app_nil_r.
  - cbn [ConllXDatasetPos.sentence_loop map concat].
    destruct (row_loop_appends cm (enumerate (ConllRow.to_list row)) cols Hrange)
      as (cols1 & Hrun1 & Hlen1 & Hcols1).
    rewrite Hrun1. cbn [bind].
    destruct (IH cols1) as (cols' & Hrun & Hlen & Hcols).
    { rewrite Hlen1. exact Hrange. }
    exists cols'. split; [done|]. split; [congruence|].
    intros j. rewrite Hcols, Hcols1.
    destruct (cols !! j); simpl; [|done]. by rewrite <- app_assoc.
Qed.

Lemma sent_to_none cm d fields :
  (forall i v, (i, v) ∈ fields -> dict_get cm i <> Some d) ->
  sent_to cm d fields = [].
Proof.
  induction fields as [|[i v] fields IH]; intros Hnone; simpl; [done|].
  rewrite decide_False by (eapply Hnone; apply list_elem_of_here).
  apply IH. intros i' v' Hin. eapply Hnone. by apply list_elem_of_further.
Qed.

(** When one key only is sent to [d], and the fields are enumerated
    without repetition, the row contributes that one field. *)
Lemma sent_to_one cm d fields i v :
  NoDup fields.*1 ->
  (i, v) ∈ fields ->
  dict_get cm i = Some d ->
  (forall i', dict_get cm i' = Some d -> i' = i) ->
  sent_to cm d fields = [v].
Proof.
  intros Hnd Hin Hget Honly.
  induction fields as [|[i0 v0] fields IH]; simpl in *.
  - by apply elem_of_nil in Hin.
  - apply NoDup_cons in Hnd as [Hi0 Hnd].
    apply elem_of_cons in Hin as [[= <- <-]|Hin].
    + rewrite decide_True by done. f_equal.
      apply sent_to_none. intros i' v' Hin' Hget'.
      apply Honly in Hget' as ->. apply Hi0.
      by apply (list_elem_of_fmap_2 fst) in Hin'.
    + rewrite decide_False; [by apply IH|].
      intros Hget0. apply Honly in Hget0 as ->. apply Hi0.
      by apply (list_elem_of_fmap_2 fst) in Hin.
Qed.

Lemma enumerate_row_indices row :
  (enumerate (ConllRow.to_list row)).*1 = [0; 1; 2; 3; 4; 5; 6; 7; 8; 9].
Proof. reflexivity. Qed.

Lemma enumerate_row_get row i :
  0 <= i < 10 ->
  (i, ConllRow_get row i) ∈ enumerate (ConllRow.to_list row).
Proof.
  intros Hi.
  assert (i = 0 \/ i = 1 \/ i = 2 \/ i = 3 \/ i = 4 \/ i = 5 \/ i = 6 \/
          i = 7 \/ i = 8 \/ i = 9) as Hcases by lia.
  apply list_elem_of_In.
  repeat (destruct Hcases as [->|Hcases]; [simpl; tauto|]).
  subst i. simpl. tauto.
Qed.

Lemma sent_to_row cm d row i :
  destinations_unique cm ->
  0 <= i < 10 ->
  dict_get cm i = Some d ->
  sent_to cm d (enumerate (ConllRow.to_list row)) = [ConllRow_get row i].
Proof.
  intros Huniq Hi Hget.
  apply (sent_to_one cm d _ i); [|by apply enumerate_row_get|done|].
  - rewrite enumerate_row_indices. compute_done.
  - intros i' Hget'. by apply (dict_get_inj cm i' i d).
Qed.

Lemma concat_singletons {A B} (f : A -> B) (l : list A) :
  concat (map (fun x => [f x]) l) = map f l.
Proof. induction l as [|x l IH]; simpl; [done|]. by rewrite IH. Qed.

Lemma key_in_range cm i d :
  keys_in_range cm -> dict_get cm i = Some d -> 0 <= i < 10.
Proof.
  intros Hkeys Hget. apply dict_get_Some in Hget as [Hin _].
  unfold keys_in_range in Hkeys. rewrite Forall_forall in Hkeys. by apply Hkeys.
Qed.

Lemma destination_in_range cm i d :
  destinations_contiguous cm -> dict_get cm i = Some d ->
  0 <= d < Z.of_nat (dict_len cm).
Proof.
  intros Hcontig Hget. apply Hcontig. by apply dict_get_Some in Hget as [_ ?].
Qed.

(** The columns a validated mapping produces: one per key, and the column
    of destination [d] lists, row after row, the field whose index is the
    key of [d]. *)
Lemma relevant_columns_validated sentence cm :
  keys_in_range cm -> destinations_unique cm -> destinations_contiguous cm ->
  exists cols,
    ConllXDatasetPos.relevant_columns sentence cm = inr cols /\
    length cols = dict_len cm /\
    forall i d, dict_get cm i = Some d ->
      cols !! Z.to_nat d = Some (map (fun row => ConllRow_get row i) sentence).
Proof.
  intros Hkeys Huniq Hcontig. unfold ConllXDatasetPos.relevant_columns.
  destruct (sentence_loop_appends cm sentence (replicate (dict_len cm) []))
    as (cols & Hrun & Hlen & Hcols).
  { intros i d Hget. rewrite length_replicate.
    by apply (destination_in_range cm i). }
  rewrite length_replicate in Hlen.
  exists cols. split; [done|]. split; [done|].
  intros i d Hget.
  pose proof (destination_in_range cm i d Hcontig Hget) as Hd.
  rewrite Hcols, lookup_replicate_2 by lia. simpl. f_equal.
  rewrite Z2Nat.id by lia.
  rewrite <- (concat_singletons (fun row => ConllRow_get row i) sentence).
  f_equal. apply map_ext. intros row.
  apply sent_to_row; [done| |done]. by apply (key_in_range cm i d).
Qed.

(** C6: for a mapping with the validation invariants, [_make_example]
    returns an example of k columns, k the number of keys; every column
    has as many entries as the sentence has rows, and the column of
    destination d holds, in token order, the field of each row that the
    mapping sends to d. *)
Theorem make_example_columns_have_sentence_length
    (sentence : list ConllRow.t) (fields : list FieldMapping) (cm : dict) :
  dict_wf cm ->
  keys_in_range cm -> destinations_unique cm -> destinations_contiguous cm ->
  exists cols,
    ConllXDatasetPos._make_example sentence fields cm =
      inr (Example_fromlist cols fields) /\
    length cols = dict_len cm /\
    Forall (fun col => length col = length sentence) cols /\
    forall d, 0 <= d < Z.of_nat (dict_len cm) ->
      exists i, dict_get cm i = Some d /\
        cols !! Z.to_nat d =
          Some (map (fun row => ConllRow_get row i) sentence).
Proof.
  intros Hwf Hkeys Huniq Hcontig.
  destruct (relevant_columns_validated sentence cm Hkeys Huniq Hcontig)
    as (cols & Hrun & Hlen & Hcols).
  assert (forall d, 0 <= d < Z.of_nat (dict_len cm) ->
    exists i, dict_get cm i = Some d /\
      cols !! Z.to_nat d = Some (map (fun row => ConllRow_get row i) sentence))
    as Hall.
  { intros d Hd. apply Hcontig in Hd.
    destruct (dict_values_get cm d Hwf Hd) as [i Hi]. exists i. eauto. }
  exists cols. unfold ConllXDatasetPos._make_example. rewrite Hrun.
  split; [done|]. split; [done|]. split; [|done].
  apply Forall_lookup. intros j col Hj.
  pose proof (lookup_lt_Some _ _ _ Hj) as Hlt.
  destruct (Hall (Z.of_nat j)) as (i & _ & Hcol); [lia|].
  rewrite Nat2Z.id, Hj in Hcol. injection Hcol as ->.
  apply length_map.
Qed.

Lemma make_example_columns_have_sentence_length_witness :
  exists cols,
    ConllXDatasetPos._make_example [row_No; row_Monday] _make_fields
      [(3, 1); (1, 0); (7, 2)] =
      inr (Example_fromlist cols _make_fields) /\
    length cols = 3%nat /\
    Forall (fun col => length col = 2%nat) cols /\
    forall d, 0 <= d < 3 ->
      exists i, dict_get [(3, 1); (1, 0); (7, 2)] i = Some d /\
        cols !! Z.to_nat d =
          Some (map (fun row => ConllRow_get row i) [row_No; row_Monday]).
Proof.
  apply (make_example_columns_have_sentence_length
           [row_No; row_Monday] _make_fields [(3, 1); (1, 0); (7, 2)]).
  - invariant_by_computation.
  - invariant_by_computation.
  - invariant_by_computation.
  - contiguous_by_cases.
Defined.

Lemma row_loop_default row a b :
  ConllXDatasetPos.row_loop _CONLL_POS_MAPPING
    (enumerate (ConllRow.to_list row)) [a; b] =
  inr [a ++ [ConllRow.form row]; b ++ [ConllRow.upos row]].
Proof. reflexivity. Qed.

Lemma sentence_loop_default sentence : forall a b,
  ConllXDatasetPos.sentence_loop _CONLL_POS_MAPPING sentence [a; b] =
  inr [a ++ map ConllRow.form sentence; b ++ map ConllRow.upos sentence].
Proof.
  induction sentence as [|row sentence IH]; intros a b.
  - simpl. by rewrite !app_nil_r.
  - cbn [ConllXDatasetPos.sentence_loop map].
    rewrite row_loop_default. cbn [bind].
    rewrite IH. by rewrite <- !app_assoc.
Qed.

(** ** Independence of the unmapped fields *)

Lemma row_loop_agree cm fields1 fields2 :
  Forall2 (fun x y => x.1 = y.1 /\ (x.1 ∈ dict_keys cm -> x.2 = y.2))
    fields1 fields2 ->
  forall cols,
    ConllXDatasetPos.row_loop cm fields1 cols =
    ConllXDatasetPos.row_loop cm fields2 cols.
Proof.
  induction 1 as [|[i v] [i' v'] fields1 fields2 [Hi Hv] _ IH];
    intros cols; [done|].
  simpl in Hi, Hv. subst i'.
  destruct (dict_get cm i) as [d|] eqn:Hget.
  - rewrite !(row_loop_mapped _ _ _ _ _ _ Hget).
    rewrite Hv by (apply dict_get_is_Some; eauto).
    destruct (append_at cols d v'); simpl; [done|apply IH].
  - rewrite !(row_loop_unmapped _ _ _ _ _ Hget). apply IH.
Qed.

Lemma enumerate_row_agree cm row1 row2 :
  agree_on cm row1 row2 ->
  Forall2 (fun x y => x.1 = y.1 /\ (x.1 ∈ dict_keys cm -> x.2 = y.2))
    (enumerate (ConllRow.to_list row1)) (enumerate (ConllRow.to_list row2)).
Proof.
  intros Hagree. unfold enumerate, ConllRow.to_list. simpl.
  repeat (constructor; [split; [done|apply Hagree]|]).
  constructor.
Qed.

(** What [_make_example] does with a sentence is determined by the fields
    whose index is a key, for any mapping. *)
Lemma sentence_loop_agree cm sentence1 sentence2 :
  Forall2 (agree_on cm) sentence1 sentence2 ->
  forall cols,
    ConllXDatasetPos.sentence_loop cm sentence1 cols =
    ConllXDatasetPos.sentence_loop cm sentence2 cols.
Proof.
  induction 1 as [|row1 row2 sentence1 sentence2 Hrow _ IH]; intros cols;
    [done|].
  cbn [ConllXDatasetPos.sentence_loop].
  rewrite (row_loop_agree cm _ _ (enumerate_row_agree cm row1 row2 Hrow)).
  destruct (ConllXDatasetPos.row_loop cm _ cols); simpl; [done|apply IH].
Qed.

(** C10: for a validated mapping, two sentences of the same length whose
    rows agree, token by token, on every field whose index is a key give
    the same destination columns, whatever their other fields hold. *)
Theorem make_example_ignores_unmapped_fields
    (sentence1 sentence2 : list ConllRow.t) (fields : list FieldMapping)
    (cm : dict) :
  dict_wf cm ->
  keys_in_range cm -> destinations_unique cm -> destinations_contiguous cm ->
  Forall2 (fun row1 row2 =>
    forall i, i ∈ dict_keys cm -> ConllRow_get row1 i = ConllRow_get row2 i)
    sentence1 sentence2 ->
  exists cols,
    ConllXDatasetPos._make_example sentence1 fields cm =
      inr (Example_fromlist cols fields) /\
    ConllXDatasetPos._make_example sentence2 fields cm =
      inr (Example_fromlist cols fields).
Proof.
  intros Hwf Hkeys Huniq Hcontig Hagree.
  destruct (relevant_columns_validated sentence1 cm Hkeys Huniq Hcontig)
    as (cols & Hrun & _).
  exists cols. unfold ConllXDatasetPos._make_example.
  assert (ConllXDatasetPos.relevant_columns sentence2 cm = inr cols) as Hrun2.
  { rewrite <- Hrun. unfold ConllXDatasetPos.relevant_columns.
    symmetry. by apply sentence_loop_agree. }
  by rewrite Hrun, Hrun2.
Qed.

Lemma make_example_ignores_unmapped_fields_witness :
  exists cols,
    ConllXDatasetPos._make_example
      [row_No; ConllRow.mk "2" "it" "_" "PRP" "PRP" "_" "7" "nsubj" "_" "_"]
      _make_fields _CONLL_POS_MAPPING =
      inr (Example_fromlist cols _make_fields) /\
    ConllXDatasetPos._make_example
      [ConllRow.mk "9" "No" "no" "RB" "UH" "a=b" "0" "root" "x" "y";
       ConllRow.mk "" "it" "" "PRP" "" "" "" "" "" ""]
      _make_fields _CONLL_POS_MAPPING =
      inr (Example_fromlist cols _make_fields).
Proof.
  apply (make_example_ignores_unmapped_fields
           [row_No; ConllRow.mk "2" "it" "_" "PRP" "PRP" "_" "7" "nsubj" "_" "_"]
           [ConllRow.mk "9" "No" "no" "RB" "UH" "a=b" "0" "root" "x" "y";
            ConllRow.mk "" "it" "" "PRP" "" "" "" "" "" ""]
           _make_fields _CONLL_POS_MAPPING).
  - invariant_by_computation.
  - invariant_by_computation.
  - invariant_by_computation.
  - contiguous_by_cases.
  - repeat constructor;
      intros i Hi; simpl in Hi;
      rewrite !elem_of_cons, elem_of_nil in Hi;
      destruct Hi as [->|[->|[]]]; reflexivity.
Defined.

(** ** The constructor *)

Lemma not_malformed_cases line :
  ~ malformed line ->
  blank line = true \/
  blank line = false /\ exists row, ConllRow.from_string (strip line) = inr row.
Proof.
  intros Hok. destruct (blank line) eqn:Hb; [by left|right].
  split; [done|].
  destruct (decide (length (split _CONLL_SEPARATOR (strip line)) = 10%nat))
    as [Hlen|Hlen].
  - destruct (new_ten _ Hlen) as (row & Hrow & _). by exists row.
  - destruct Hok. by split.
Qed.

Lemma malformed_raises line :
  malformed line ->
  ConllRow.from_string (strip line) =
    inl (TypeError (length (split _CONLL_SEPARATOR (strip line)))).
Proof. intros [_ Hlen]. by apply new_not_ten. Qed.

(** Once the input holds a malformed line the loop of the constructor ends
    in an exception, whatever it has accumulated. *)
Lemma sentences_loop_malformed fields cm file :
  Exists malformed file ->
  forall rows examples, exists e,
    ConllXDatasetPos.sentences_loop fields cm (iterate_rows rows file) examples
      = inl e.
Proof.
  induction file as [|line file IH]; intros Hbad rows examples.
  - by apply Exists_nil in Hbad.
  - destruct (blank line) eqn:Hb.
    + apply Exists_cons in Hbad as [[Hnb _]|Hbad]; [congruence|].
      rewrite (iterate_rows_blank _ _ _ Hb).
      cbn [ConllXDatasetPos.sentences_loop].
      destruct (ConllXDatasetPos._make_example rows fields cm) as [e|ex];
        simpl; [by exists e|by apply IH].
    + destruct (ConllRow.from_string (strip line)) as [e|row] eqn:Hrow.
      * rewrite (iterate_rows_malformed _ _ _ _ Hb Hrow). by exists e.
      * rewrite (iterate_rows_row _ _ _ _ Hb Hrow).
        apply Exists_cons in Hbad as [Hline|Hbad]; [|by apply IH].
        apply malformed_raises in Hline. congruence.
Qed.

(** When applying the mapping cannot raise, the exception is the one of
    the first malformed line. *)
Lemma sentences_loop_first_malformed fields cm good bad rest :
  (forall sentence, exists ex,
     ConllXDatasetPos._make_example sentence fields cm = inr ex) ->
  Forall (fun line => ~ malformed line) good ->
  malformed bad ->
  forall rows examples,
    ConllXDatasetPos.sentences_loop fields cm
      (iterate_rows rows (good ++ bad :: rest)) examples
    = inl (TypeError (length (split _CONLL_SEPARATOR (strip bad)))).
Proof.
  intros Htotal Hgood Hbad.
  induction Hgood as [|line good Hline _ IH]; intros rows examples.
  - cbn [app]. destruct Hbad as [Hb Hlen].
    by rewrite (iterate_rows_malformed _ _ _ _ Hb
                  (malformed_raises _ (conj Hb Hlen))).
  - cbn [app].
    destruct (not_malformed_cases _ Hline) as [Hb|[Hb [row Hrow]]].
    + rewrite (iterate_rows_blank _ _ _ Hb).
      cbn [ConllXDatasetPos.sentences_loop].
      destruct (Htotal rows) as [ex ->]. cbn [bind]. apply IH.
    + rewrite (iterate_rows_row _ _ _ _ Hb Hrow). apply IH.
Qed.

Lemma make_example_validated sentence fields cm :
  keys_in_range cm -> destinations_unique cm -> destinations_contiguous cm ->
  exists ex, ConllXDatasetPos._make_example sentence fields cm = inr ex.
Proof.
  intros Hkeys Huniq Hcontig.
  destruct (relevant_columns_validated sentence cm Hkeys Huniq Hcontig)
    as (cols & Hrun & _).
  unfold ConllXDatasetPos._make_example. rewrite Hrun. by eexists.
Qed.

(** The test of the repository: two sentences, the second of them the one
    token [But] tagged [CC]. *)
Lemma test_read_file :
  exists dataset,
    (ConllXDatasetPos.__init__ (fun _ => Some TEMPORARY_CONTENT) "tmp"
       _make_fields None None).1 = inr dataset /\
    length (examples dataset) = 2%nat /\
    Example_data <$> examples dataset !! 1%nat = Some [["But"]; ["CC"]].
Proof. eexists. split; [vm_compute; reflexivity|]. split; reflexivity. Qed.

(** C1: the claim says that the constructor rejects an ill-formed mapping
    before it opens the file.  [__init__] never calls
    [_validate_column_map]: with a key outside [0,9], or with a repeated
    destination, it opens the file, reads it and returns a dataset; with a
    destination outside 0..k-1 it raises [IndexError] from
    [_make_example], after the file was opened and the first sentence
    parsed. *)
Theorem init_does_not_validate_the_mapping :
  ConllXDatasetPos._validate_column_map [(10, 0)] =
    inl (ValueError (OutOfRangeIndices [10])) /\
  ConllXDatasetPos.__init__ (fun _ => Some [line_But]) "test.conllx"
    _make_fields (Some [(10, 0)]) None =
    (inr (mkDataset [Example_fromlist [[]] _make_fields] _make_fields),
     [Opened "test.conllx"; Closed "test.conllx"]) /\
  ConllXDatasetPos._validate_column_map [(1, 0); (3, 0)] =
    inl (ValueError (DestinationsNotUnique [0; 0])) /\
  ConllXDatasetPos.__init__ (fun _ => Some [line_But]) "test.conllx"
    _make_fields (Some [(1, 0); (3, 0)]) None =
    (inr (mkDataset [Example_fromlist [["But"; "CC"]; []] _make_fields]
            _make_fields),
     [Opened "test.conllx"; Closed "test.conllx"]) /\
  ConllXDatasetPos._validate_column_map [(1, 0); (3, 5)] =
    inl (ValueError (DestinationsNotContiguous [0; 5])) /\
  ConllXDatasetPos.__init__ (fun _ => Some [line_But]) "test.conllx"
    _make_fields (Some [(1, 0); (3, 5)]) None =
    (inl (IndexError 5), [Opened "test.conllx"; Closed "test.conllx"]).
Proof. repeat split; vm_compute; reflexivity. Qed.

(** C8: when a line of the opened file is malformed (not blank, and not
    ten tab-separated fields once stripped), the constructor ends in an
    exception and returns no dataset, whatever was parsed before that
    line.  When moreover the mapping has the validation invariants, as the
    default mapping has, the exception is the [TypeError] of the first
    malformed line. *)
Theorem init_aborts_on_malformed_line (fs : filesystem) (path : string)
    (fields : list FieldMapping) (column_mapping : option dict)
    (filter_pred : option (Example -> bool)) (good : list string)
    (bad : string) (rest : list string) :
  fs path = Some (good ++ bad :: rest) ->
  malformed bad ->
  (exists e,
     (ConllXDatasetPos.__init__ fs path fields column_mapping filter_pred).1
       = inl e) /\
  (Forall (fun line => ~ malformed line) good ->
   validated (default _CONLL_POS_MAPPING column_mapping) ->
   (ConllXDatasetPos.__init__ fs path fields column_mapping filter_pred).1
     = inl (TypeError (length (split _CONLL_SEPARATOR (strip bad))))).
Proof.
  intros Hopen Hbad. unfold ConllXDatasetPos.__init__. rewrite Hopen.
  cbn [fst]. unfold _iterate_conll_sentences. split.
  - destruct (sentences_loop_malformed fields
                (default _CONLL_POS_MAPPING column_mapping)
                (good ++ bad :: rest)) with (rows := @nil ConllRow.t)
                (examples := @nil Example) as [e He].
    { apply Exists_app. right. by apply Exists_cons_hd. }
    exists e. by rewrite He.
  - intros Hgood (Hkeys & Huniq & Hcontig).
    rewrite sentences_loop_first_malformed; [done| |done..].
    intros sentence. by apply make_example_validated.
Qed.

Lemma init_aborts_on_malformed_line_witness :
  (exists e,
     (ConllXDatasetPos.__init__
        (fun _ => Some ([line_No; NEWLINE] ++ line_short :: [line_Monday]))
        "test.conllx" _make_fields None None).1 = inl e) /\
  (ConllXDatasetPos.__init__
     (fun _ => Some ([line_No; NEWLINE] ++ line_short :: [line_Monday]))
     "test.conllx" _make_fields None None).1 = inl (TypeError 2).
Proof.
  destruct (init_aborts_on_malformed_line
              (fun _ => Some ([line_No; NEWLINE] ++ line_short :: [line_Monday]))
              "test.conllx" _make_fields None None
              [line_No; NEWLINE] line_short [line_Monday])
    as [Hraise Hfirst].
  - reflexivity.
  - split; [reflexivity|vm_compute; discriminate].
  - split; [exact Hraise|].
    apply Hfirst.
    + repeat constructor; intros [Hb Hlen]; vm_compute in Hb, Hlen;
        congruence.
    + split; [|split]; [invariant_by_computation..|contiguous_by_cases].
Defined.

(** * Further properties *)

(** ** Rows and lines *)

Lemma length_split sep s : length (split sep s) = S (count sep s).
Proof.
  induction s as [|c s IH]; simpl; [done|].
  destruct (Ascii.eqb c sep); simpl; [by rewrite IH|].
  pose proof (split_nonempty sep s) as Hne.
  destruct (split sep s) as [|f fs]; [done|]. simpl in *. lia.
Qed.

Lemma split_no_occurrence sep f : occurs sep f = false -> split sep f = [f].
Proof.
  induction f as [|c f IH]; simpl; [done|].
  destruct (Ascii.eqb c sep); simpl; [done|].
  intros Hf. by rewrite (IH Hf).
Qed.

Lemma split_field_then sep f s :
  occurs sep f = false ->
  split sep (f ++ String sep s)%string = f :: split sep s.
Proof.
  induction f as [|c f IH]; simpl.
  - by rewrite Ascii.eqb_refl.
  - destruct (Ascii.eqb c sep); simpl; [done|].
    intros Hf. by rewrite (IH Hf).
Qed.

(** Splitting undoes joining, for fields free of the separator. *)
Lemma split_join sep fs :
  fs <> [] ->
  Forall (fun f => occurs sep f = false) fs ->
  split sep (join (String sep "") fs) = fs.
Proof.
  intros Hne Hfs. induction Hfs as [|f fs Hf Hfs IH]; [done|].
  destruct fs as [|g fs].
  - simpl. by apply split_no_occurrence.
  - cbn [join]. change (String sep "" ++ ?s)%string with (String sep s).
    rewrite (split_field_then _ _ _ Hf). f_equal. by apply IH.
Qed.

Lemma to_list_inj row1 row2 :
  ConllRow.to_list row1 = ConllRow.to_list row2 -> row1 = row2.
Proof. destruct row1, row2. unfold ConllRow.to_list. simpl. congruence. Qed.

(** X1: a row written as its ten fields joined by tabs is read back by
    [ConllRow.from_string], provided no field contains a tab. *)
Theorem from_string_of_joined_fields (row : ConllRow.t) :
  Forall (fun f => occurs _CONLL_SEPARATOR f = false) (ConllRow.to_list row) ->
  ConllRow.from_string (join TAB (ConllRow.to_list row)) = inr row.
Proof.
  intros Hfields. unfold ConllRow.from_string, TAB.
  rewrite split_join by done.
  by destruct row.
Qed.

Lemma from_string_of_joined_fields_witness :
  ConllRow.from_string (join TAB (ConllRow.to_list row_Monday)) =
  inr row_Monday.
Proof.
  apply (from_string_of_joined_fields row_Monday).
  repeat constructor.
Defined.

(** X2: whatever [ConllRow.from_string] returns, its fields joined by tabs
    are the argument, and no field contains a tab; so two strings that
    give the same row are the same string. *)
Theorem from_string_fields_join_to_argument (s : string) (row : ConllRow.t) :
  ConllRow.from_string s = inr row ->
  join TAB (ConllRow.to_list row) = s /\
  Forall (fun f => occurs _CONLL_SEPARATOR f = false) (ConllRow.to_list row) /\
  forall s', ConllRow.from_string s' = inr row -> s' = s.
Proof.
  assert (forall s row, ConllRow.from_string s = inr row ->
            ConllRow.to_list row = split _CONLL_SEPARATOR s) as Hfields.
  { intros s0 row0 Hrow. unfold ConllRow.from_string in Hrow.
    destruct (decide (length (split _CONLL_SEPARATOR s0) = 10%nat)) as [Hlen|Hlen].
    - destruct (new_ten _ Hlen) as (r & Hr & <-). congruence.
    - rewrite (new_not_ten _ Hlen) in Hrow. discriminate. }
  intros Hrow. pose proof (Hfields _ _ Hrow) as Hs.
  split; [|split].
  - rewrite Hs. apply join_split.
  - rewrite Hs. apply split_no_separator.
  - intros s' Hrow'. apply Hfields in Hrow'.
    rewrite <- (join_split _CONLL_SEPARATOR s'), <- Hrow', Hs.
    apply join_split.
Qed.

Lemma from_string_fields_join_to_argument_witness :
  join TAB (ConllRow.to_list row_But) = strip line_But /\
  Forall (fun f => occurs _CONLL_SEPARATOR f = false)
    (ConllRow.to_list row_But) /\
  forall s', ConllRow.from_string s' = inr row_But -> s' = strip line_But.
Proof.
  apply (from_string_fields_join_to_argument (strip line_But) row_But).
  reflexivity.
Defined.

(** X3: [ConllRow.from_string] returns a row exactly for the strings with
    nine tabs; for a string with n tabs, n other than nine, it raises the
    [TypeError] of n + 1 arguments. *)
Theorem from_string_counts_tabs (s : string) :
  (count _CONLL_SEPARATOR s = 9%nat /\
   exists row, ConllRow.from_string s = inr row) \/
  (count _CONLL_SEPARATOR s <> 9%nat /\
   ConllRow.from_string s = inl (TypeError (S (count _CONLL_SEPARATOR s)))).
Proof.
  pose proof (length_split _CONLL_SEPARATOR s) as Hlen.
  destruct (decide (count _CONLL_SEPARATOR s = 9%nat)) as [Hnine|Hnot].
  - left. split; [done|].
    destruct (new_ten (split _CONLL_SEPARATOR s)) as (row & Hrow & _); [lia|].
    by exists row.
  - right. split; [done|].
    unfold ConllRow.from_string. rewrite new_not_ten by lia. by rewrite Hlen.
Qed.

(** X4: the enumeration [ConllField] and the named tuple [ConllRow] list
    the fields in the same order: the value of a member is the position of
    the attribute of that name, it is a valid index for the validator, and
    distinct members have distinct values. *)
Theorem ConllField_matches_ConllRow (f : ConllField) :
  (forall row, ConllRow_get row (ConllField_value f) = ConllField_attr f row) /\
  ConllXDatasetPos.valid_index (ConllField_value f) = true /\
  forall g, ConllField_value f = ConllField_value g -> f = g.
Proof.
  split; [|split].
  - intros row. by destruct f.
  - by destruct f.
  - intros g. by destruct f, g.
Qed.

(** ** Whitespace around a line *)

Lemma all_space_app s t :
  all_space (s ++ t)%string = all_space s && all_space t.
Proof.
  induction s as [|c s IH]; simpl; [done|].
  rewrite IH. by destruct (isspace c).
Qed.

Lemma lstrip_all_space s : all_space s = true -> lstrip s = EmptyString.
Proof.
  induction s as [|c s IH]; simpl; [done|].
  destruct (isspace c); [apply IH|done].
Qed.

Lemma lstrip_space_app t s :
  all_space t = true -> lstrip (t ++ s)%string = lstrip s.
Proof.
  induction t as [|c t IH]; simpl; [done|].
  destruct (isspace c); [apply IH|done].
Qed.

Lemma rstrip_all_space s : all_space s = true -> rstrip s = EmptyString.
Proof.
  induction s as [|c s IH]; simpl; [done|].
  destruct (isspace c); simpl; [|done].
  intros Hs. by rewrite (IH Hs).
Qed.

Lemma rstrip_app_space s t :
  all_space t = true -> rstrip (s ++ t)%string = rstrip s.
Proof.
  intros Ht. induction s as [|c s IH]; simpl.
  - by apply rstrip_all_space.
  - by rewrite IH.
Qed.

Lemma lstrip_app_space s t :
  all_space t = true ->
  lstrip (s ++ t)%string =
  if all_space s then EmptyString else (lstrip s ++ t)%string.
Proof.
  intros Ht. induction s as [|c s IH]; simpl.
  - by apply lstrip_all_space.
  - destruct (isspace c); simpl; [apply IH|done].
Qed.

(** Whitespace after a string does not change what [strip] leaves. *)
Lemma strip_app_space s t : all_space t = true -> strip (s ++ t) = strip s.
Proof.
  intros Ht. unfold strip. rewrite (lstrip_app_space _ _ Ht).
  destruct (all_space s) eqn:Hs.
  - by rewrite (lstrip_all_space _ Hs).
  - by apply rstrip_app_space.
Qed.

(** Nor does whitespace before it. *)
Lemma strip_space_app t s : all_space t = true -> strip (t ++ s) = strip s.
Proof. intros Ht. unfold strip. by rewrite (lstrip_space_app _ _ Ht). Qed.

Lemma count_lstrip c s : (count c (lstrip s) <= count c s)%nat.
Proof.
  induction s as [|c' s IH]; simpl; [done|].
  destruct (isspace c'); simpl; lia.
Qed.

Lemma count_rstrip c s : (count c (rstrip s) <= count c s)%nat.
Proof.
  induction s as [|c' s IH]; simpl; [done|].
  destruct (rstrip s) as [|d t] eqn:Hr.
  - destruct (isspace c'); simpl in *; lia.
  - simpl in *. lia.
Qed.

Lemma count_strip c s : (count c (strip s) <= count c s)%nat.
Proof.
  unfold strip. etrans; [apply count_rstrip|apply count_lstrip].
Qed.

Lemma iterate_rows_strip file1 file2 :
  Forall2 (fun line1 line2 => strip line1 = strip line2) file1 file2 ->
  forall rows, iterate_rows rows file1 = iterate_rows rows file2.
Proof.
  induction 1 as [|line1 line2 file1 file2 Hline _ IH]; intros rows; [done|].
  simpl. rewrite Hline.
  destruct (str_bool (strip line2)); [|by rewrite IH].
  destruct (ConllRow.from_string (strip line2)); [done|apply IH].
Qed.

(** X5: whitespace added before or after the lines of a file (an
    indentation, spaces at the end, another line terminator) changes
    nothing of what [_iterate_conll_sentences] yields or raises. *)
Theorem iterate_ignores_surrounding_whitespace (file file' : list string) :
  Forall2 (fun line line' => exists a b,
    all_space a = true /\ all_space b = true /\
    line' = (a ++ line ++ b)%string) file file' ->
  _iterate_conll_sentences file' = _iterate_conll_sentences file.
Proof.
  intros Hpad. apply iterate_rows_strip.
  induction Hpad as [|line line' file file' (a & b & Ha & Hb & ->) _ IH];
    constructor; [|done].
  by rewrite (strip_space_app _ _ Ha), (strip_app_space _ _ Hb).
Qed.

Lemma iterate_ignores_surrounding_whitespace_witness :
  _iterate_conll_sentences
    [("  " ++ line_No ++ "")%string; ("" ++ NEWLINE ++ " ")%string;
     ("" ++ line_But ++ NEWLINE)%string] =
  _iterate_conll_sentences [line_No; NEWLINE; line_But].
Proof.
  apply (iterate_ignores_surrounding_whitespace
           [line_No; NEWLINE; line_But]
           [("  " ++ line_No ++ "")%string; ("" ++ NEWLINE ++ " ")%string;
            ("" ++ line_But ++ NEWLINE)%string]).
  repeat constructor.
  - exists "  "%string, ""%string. repeat split.
  - exists ""%string, " "%string. repeat split.
  - exists ""%string, NEWLINE. repeat split.
Defined.

(** X6: stripping takes tabs away with the other whitespace.  A line of at
    most ten fields whose last field is empty or whitespace, or whose first
    field is, is never parsed into a row once stripped. *)
Theorem stripped_edge_field_is_lost (s t : string) :
  all_space t = true ->
  (count _CONLL_SEPARATOR s <= 8)%nat ->
  (forall row,
     ConllRow.from_string (strip (s ++ TAB ++ t)) <> inr row) /\
  (forall row,
     ConllRow.from_string (strip (t ++ TAB ++ s)) <> inr row).
Proof.
  intros Ht Hs.
  assert (all_space (TAB ++ t) = true) as Htab by (simpl; by rewrite Ht).
  assert (all_space (t ++ TAB) = true) as Htab'.
  { rewrite all_space_app, Ht. reflexivity. }
  assert (forall row, ConllRow.from_string (strip s) <> inr row) as Hnone.
  { intros row. unfold ConllRow.from_string. rewrite new_not_ten; [done|].
    rewrite length_split. pose proof (count_strip _CONLL_SEPARATOR s). lia. }
  split; intros row.
  - by rewrite (strip_app_space _ _ Htab).
  - replace (t ++ TAB ++ s)%string with ((t ++ TAB) ++ s)%string.
    + by rewrite (strip_space_app _ _ Htab').
    + clear. induction t as [|c t IH]; simpl; [done|]. by rewrite IH.
Qed.

Lemma stripped_edge_field_is_lost_witness :
  (forall row,
     ConllRow.from_string
       (strip (join TAB ["1"; "But"; "_"; "CC"; "CC"; "_"; "33"; "cc"; "_"]
               ++ TAB ++ NEWLINE)) <> inr row) /\
  (forall row,
     ConllRow.from_string
       (strip (NEWLINE ++ TAB ++
               join TAB ["1"; "But"; "_"; "CC"; "CC"; "_"; "33"; "cc"; "_"]))
     <> inr row).
Proof.
  apply (stripped_edge_field_is_lost
           (join TAB ["1"; "But"; "_"; "CC"; "CC"; "_"; "33"; "cc"; "_"])
           NEWLINE).
  - reflexivity.
  - vm_compute. lia.
Defined.

(** ** More on the sentence grouper *)

Lemma malformed_dec line : {malformed line} + {~ malformed line}.
Proof.
  unfold malformed.
  destruct (blank line);
    [right; intros [? _]; discriminate|].
  destruct (decide (length (split _CONLL_SEPARATOR (strip line)) = 10%nat)).
  - right. intros [_ ?]. done.
  - by left.
Qed.

Lemma iterate_rows_raised_None file :
  Forall (fun line => ~ malformed line) file ->
  forall rows, raised (iterate_rows rows file) = None.
Proof.
  induction 1 as [|line file Hline _ IH]; intros rows.
  - simpl. by destruct rows.
  - destruct (not_malformed_cases _ Hline) as [Hb|[Hb [row Hrow]]].
    + rewrite (iterate_rows_blank _ _ _ Hb). apply IH.
    + rewrite (iterate_rows_row _ _ _ _ Hb Hrow). apply IH.
Qed.

Lemma iterate_rows_first_malformed good bad rest :
  Forall (fun line => ~ malformed line) good ->
  malformed bad ->
  forall rows,
    raised (iterate_rows rows (good ++ bad :: rest)) =
      Some (TypeError (length (split _CONLL_SEPARATOR (strip bad)))) /\
    exists tail,
      yielded (iterate_rows rows good) =
        yielded (iterate_rows rows (good ++ bad :: rest)) ++ tail /\
      (length tail <= 1)%nat.
Proof.
  intros Hgood Hbad.
  induction Hgood as [|line good Hline _ IH]; intros rows.
  - cbn [app]. destruct Hbad as [Hb Hlen].
    rewrite (iterate_rows_malformed _ _ _ _ Hb
               (malformed_raises _ (conj Hb Hlen))).
    split; [done|]. simpl. destruct rows; simpl; eexists; split; try done;
      simpl; lia.
  - cbn [app].
    destruct (not_malformed_cases _ Hline) as [Hb|[Hb [row Hrow]]].
    + rewrite !(iterate_rows_blank _ _ _ Hb). simpl.
      destruct (IH []) as (Hraise & tail & Hyield & Hlen).
      split; [done|]. exists tail. by rewrite Hyield.
    + rewrite !(iterate_rows_row _ _ _ _ Hb Hrow). apply IH.
Qed.

(** X7: [_iterate_conll_sentences] runs to its end without raising exactly
    when no line of the input is malformed (non-blank with other than ten
    fields once stripped). *)
Theorem iterate_raises_iff_malformed_line (file : list string) :
  raised (_iterate_conll_sentences file) = None <->
  Forall (fun line => ~ malformed line) file.
Proof.
  split.
  - intros Hnone. apply Forall_forall. intros line Hin Hbad.
    apply list_elem_of_split in Hin as (l1 & l2 & ->).
    assert (exists good bad rest, l1 ++ line :: l2 = good ++ bad :: rest /\
              Forall (fun line => ~ malformed line) good /\ malformed bad)
      as (good & bad & rest & Heq & Hgood & Hbad').
    { clear Hnone. induction l1 as [|l l1 IH].
      - exists [], line, l2. split; [done|]. split; [constructor|done].
      - destruct (malformed_dec l) as [Hl|Hl].
        + exists [], l, (l1 ++ line :: l2).
          split; [done|]. split; [constructor|done].
        + destruct IH as (good & bad & rest & Heq & Hgood & Hbad').
          exists (l :: good), bad, rest. simpl. rewrite Heq.
          split; [done|]. split; [by constructor|done]. }
    rewrite Heq in Hnone. unfold _iterate_conll_sentences in Hnone.
    destruct (iterate_rows_first_malformed good bad rest Hgood Hbad' [])
      as [Hraise _].
    congruence.
  - intros Hall. by apply iterate_rows_raised_None.
Qed.

Lemma iterate_raises_iff_malformed_line_witness :
  raised (_iterate_conll_sentences [line_No; NEWLINE; line_But]) = None.
Proof.
  apply (proj2 (iterate_raises_iff_malformed_line
                  [line_No; NEWLINE; line_But])).
  repeat constructor; intros [Hb Hlen]; vm_compute in Hb, Hlen; congruence.
Defined.

(** X8: at the first malformed line the generator raises the [TypeError]
    of that line; what it has yielded by then are the sentences it yields
    on the lines before, except for the one still open when the line is
    met. *)
Theorem iterate_stops_at_first_malformed_line
    (good : list string) (bad : string) (rest : list string) :
  Forall (fun line => ~ malformed line) good ->
  malformed bad ->
  raised (_iterate_conll_sentences (good ++ bad :: rest)) =
    Some (TypeError (length (split _CONLL_SEPARATOR (strip bad)))) /\
  exists tail,
    yielded (_iterate_conll_sentences good) =
      yielded (_iterate_conll_sentences (good ++ bad :: rest)) ++ tail /\
    (length tail <= 1)%nat.
Proof.
  intros Hgood Hbad.
  apply (iterate_rows_first_malformed good bad rest Hgood Hbad []).
Qed.

Lemma iterate_stops_at_first_malformed_line_witness :
  raised (_iterate_conll_sentences
            ([line_No; NEWLINE; line_Monday] ++ line_short :: [line_But])) =
    Some (TypeError 2) /\
  exists tail,
    yielded (_iterate_conll_sentences [line_No; NEWLINE; line_Monday]) =
      yielded (_iterate_conll_sentences
        ([line_No; NEWLINE; line_Monday] ++ line_short :: [line_But]))
      ++ tail /\
    (length tail <= 1)%nat.
Proof.
  apply (iterate_stops_at_first_malformed_line
           [line_No; NEWLINE; line_Monday] line_short [line_But]).
  - repeat constructor; intros [Hb Hlen]; vm_compute in Hb, Hlen; congruence.
  - split; [reflexivity|vm_compute; discriminate].
Defined.

Lemma list_bool_snoc {A} (l : list A) x : list_bool (l ++ [x]) = true.
Proof. by destruct l. Qed.

Lemma iterate_rows_trailing_blank file b :
  blank b = true ->
  file <> [] ->
  blank (List.last file EmptyString) = false ->
  forall rows, iterate_rows rows (file ++ [b]) = iterate_rows rows file.
Proof.
  intros Hb. induction file as [|line file IH]; intros Hne Hlast rows; [done|].
  destruct file as [|line' file].
  - simpl in Hlast. cbn [app].
    destruct (ConllRow.from_string (strip line)) as [e|row] eqn:Hrow.
    + by rewrite !(iterate_rows_malformed _ _ _ _ Hlast Hrow).
    + rewrite !(iterate_rows_row _ _ _ _ Hlast Hrow).
      rewrite (iterate_rows_blank _ _ _ Hb). simpl.
      by rewrite list_bool_snoc.
  - change (List.last (line :: line' :: file) EmptyString)
      with (List.last (line' :: file) EmptyString) in Hlast.
    assert (forall rows, iterate_rows rows ((line' :: file) ++ [b]) =
                         iterate_rows rows (line' :: file)) as IH'
      by by apply IH.
    change ((line :: line' :: file) ++ [b])
      with (line :: ((line' :: file) ++ [b])).
    cbn [iterate_rows].
    destruct (str_bool (strip line)).
    + destruct (ConllRow.from_string (strip line)); [done|apply IH'].
    + f_equal. apply IH'.
Qed.

(** X9: the blank line after the last sentence is optional: when the last
    line of a file is not blank, a blank line added at the end changes
    nothing of what the generator yields or raises. *)
Theorem trailing_blank_line_is_optional
    (file : list string) (last_line b : string) :
  blank last_line = false ->
  blank b = true ->
  _iterate_conll_sentences ((file ++ [last_line]) ++ [b]) =
  _iterate_conll_sentences (file ++ [last_line]).
Proof.
  intros Hlast Hb. unfold _iterate_conll_sentences.
  apply iterate_rows_trailing_blank; [done| |].
  - by destruct file.
  - by rewrite last_last.
Qed.

Lemma trailing_blank_line_is_optional_witness :
  _iterate_conll_sentences
    (([line_No; NEWLINE] ++ [line_But]) ++ [NEWLINE]) =
  _iterate_conll_sentences ([line_No; NEWLINE] ++ [line_But]).
Proof.
  apply (trailing_blank_line_is_optional [line_No; NEWLINE] line_But NEWLINE);
    reflexivity.
Defined.

Lemma iterate_rows_single_spaced file : forall rows,
  single_spaced_from (negb (list_bool rows)) file = true ->
  Forall (fun sentence => sentence <> []) (yielded (iterate_rows rows file)).
Proof.
  induction file as [|line file IH]; intros rows Hfile; simpl in *.
  - destruct rows; simpl; by repeat constructor.
  - unfold blank in Hfile.
    destruct (str_bool (strip line)); simpl in *.
    + destruct (ConllRow.from_string (strip line)) as [e|row]; simpl;
        [constructor|].
      apply IH. by rewrite list_bool_snoc.
    + apply andb_true_iff in Hfile as [Hrows Hfile].
      constructor; [by destruct rows|by apply IH].
Qed.

Lemma filter_all {A} (p : A -> bool) l :
  Forall (fun x => p x = true) l -> List.filter p l = l.
Proof. induction 1 as [|x l Hx _ IH]; simpl; [done|]. by rewrite Hx, IH. Qed.

(** X10: on a file without a blank line at its start and without two blank
    lines in a row, no yielded sentence is empty; when moreover every
    non-blank line parses, the yielded sentences are as many as the blocks
    of non-blank lines. *)
Theorem single_spaced_file_yields_its_blocks (file : list string) :
  single_spaced file = true ->
  Forall (fun sentence => sentence <> [])
    (yielded (_iterate_conll_sentences file)) /\
  forall rows,
    Forall2 (fun line row => ConllRow.from_string line = inr row)
      (List.filter str_bool (map strip file)) rows ->
    length (yielded (_iterate_conll_sentences file)) = count_blocks file.
Proof.
  intros Hfile.
  pose proof (iterate_rows_single_spaced file [] Hfile) as Hne.
  split; [done|]. intros rows Hrows.
  rewrite <- (filter_all list_bool (yielded (_iterate_conll_sentences file))).
  - apply (nonempty_yields_count_blocks file [] rows Hrows).
  - eapply Forall_impl; [exact Hne|]. intros [|? ?]; done.
Qed.

Lemma single_spaced_file_yields_its_blocks_witness :
  Forall (fun sentence => sentence <> [])
    (yielded (_iterate_conll_sentences TEMPORARY_CONTENT)) /\
  forall rows,
    Forall2 (fun line row => ConllRow.from_string line = inr row)
      (List.filter str_bool (map strip TEMPORARY_CONTENT)) rows ->
    length (yielded (_iterate_conll_sentences TEMPORARY_CONTENT)) =
      count_blocks TEMPORARY_CONTENT.
Proof.
  apply (single_spaced_file_yields_its_blocks TEMPORARY_CONTENT).
  reflexivity.
Defined.

(** X11: whatever the blank lines, when every non-blank line parses the
    non-empty lists among the yielded ones are as many as the blocks of
    non-blank lines, and they hold all the rows. *)
Theorem nonempty_sentences_are_the_blocks
    (file : list string) (rows : list ConllRow.t) :
  Forall2 (fun line row => ConllRow.from_string line = inr row)
    (List.filter str_bool (map strip file)) rows ->
  length (List.filter list_bool (yielded (_iterate_conll_sentences file))) =
    count_blocks file /\
  concat (List.filter list_bool (yielded (_iterate_conll_sentences file))) =
    rows.
Proof.
  intros Hrows. split.
  - apply (nonempty_yields_count_blocks file [] rows Hrows).
  - destruct (iterate_rows_concat file [] rows Hrows) as [_ Hcat].
    simpl in Hcat. rewrite <- Hcat. unfold _iterate_conll_sentences.
    generalize (yielded (iterate_rows [] file)). clear.
    induction l as [|[|row sentence] l IH]; simpl; [done|done|].
    by rewrite IH.
Qed.

Lemma nonempty_sentences_are_the_blocks_witness :
  length (List.filter list_bool (yielded (_iterate_conll_sentences
    [NEWLINE; line_No; line_Monday; NEWLINE; NEWLINE; line_But]))) =
    count_blocks [NEWLINE; line_No; line_Monday; NEWLINE; NEWLINE; line_But] /\
  concat (List.filter list_bool (yielded (_iterate_conll_sentences
    [NEWLINE; line_No; line_Monday; NEWLINE; NEWLINE; line_But]))) =
    [row_No; row_Monday; row_But].
Proof.
  apply (nonempty_sentences_are_the_blocks
           [NEWLINE; line_No; line_Monday; NEWLINE; NEWLINE; line_But]
           [row_No; row_Monday; row_But]).
  repeat constructor.
Defined.

(** ** More on the application of a column mapping *)

(** X12: for a mapping whose destinations all lie in 0..k-1, repeated or
    not, [_make_example] does not raise, and column j of the example
    holds, row after row, the fields whose index the mapping sends to j,
    in field order within a row.  Two keys with one destination therefore
    interleave their fields in one column. *)
Theorem make_example_collects_fields_by_destination
    (sentence : list ConllRow.t) (fields : list FieldMapping) (cm : dict) :
  (forall i d, dict_get cm i = Some d -> 0 <= d < Z.of_nat (dict_len cm)) ->
  exists cols,
    ConllXDatasetPos._make_example sentence fields cm =
      inr (Example_fromlist cols fields) /\
    length cols = dict_len cm /\
    forall j : nat, (j < dict_len cm)%nat ->
      cols !! j =
        Some (concat (map (fun row =>
          sent_to cm (Z.of_nat j) (enumerate (ConllRow.to_list row)))
          sentence)).
Proof.
  intros Hrange.
  destruct (sentence_loop_appends cm sentence (replicate (dict_len cm) []))
    as (cols & Hrun & Hlen & Hcols).
  { intros i d Hget. rewrite length_replicate. eauto. }
  rewrite length_replicate in Hlen.
  exists cols. unfold ConllXDatasetPos._make_example,
    ConllXDatasetPos.relevant_columns. rewrite Hrun.
  split; [done|]. split; [done|].
  intros j Hj. by rewrite Hcols, lookup_replicate_2.
Qed.

Lemma make_example_collects_fields_by_destination_witness :
  exists cols,
    ConllXDatasetPos._make_example [row_No; row_But] _make_fields
      [(3, 0); (1, 0); (7, 1)] =
      inr (Example_fromlist cols _make_fields) /\
    length cols = 3%nat /\
    forall j : nat, (j < 3)%nat ->
      cols !! j =
        Some (concat (map (fun row =>
          sent_to [(3, 0); (1, 0); (7, 1)] (Z.of_nat j)
            (enumerate (ConllRow.to_list row)))
          [row_No; row_But])).
Proof.
  apply (make_example_collects_fields_by_destination
           [row_No; row_But] _make_fields [(3, 0); (1, 0); (7, 1)]).
  intros i d. simpl.
  repeat (destruct (Z.eqb i _); [intros [= <-]; lia|]).
  discriminate.
Defined.

(** *** No value lost, none invented *)

Lemma list_index_lt n d j : list_index n d = inr j -> (j < n)%nat.
Proof.
  unfold list_index.
  destruct (Z.leb_spec 0 d), (Z.ltb_spec d (Z.of_nat n)); simpl;
    try (intros [= <-]; lia);
    destruct (Z.leb_spec (- Z.of_nat n) d), (Z.ltb_spec d 0); simpl;
    try discriminate; intros [= <-]; lia.
Qed.

Lemma length_concat_alter_snoc (cols : list (list string)) j v :
  (j < length cols)%nat ->
  length (concat (alter (fun col => col ++ [v]) j cols)) =
  S (length (concat cols)).
Proof.
  revert j. induction cols as [|col cols IH]; intros j Hj; simpl in *; [lia|].
  destruct j as [|j]; simpl.
  - rewrite !length_app. simpl. lia.
  - specialize (IH j ltac:(lia)). unfold alter in IH.
    rewrite !length_app, IH. lia.
Qed.

Lemma append_at_total cols d v cols' :
  append_at cols d v = inr cols' ->
  length cols' = length cols /\
  length (concat cols') = S (length (concat cols)).
Proof.
  unfold append_at.
  destruct (list_index (length cols) d) as [e|j] eqn:Hj; simpl; [done|].
  intros [= <-]. apply list_index_lt in Hj.
  split; [apply length_alter|by apply length_concat_alter_snoc].
Qed.

Lemma row_loop_total cm fields : forall cols cols',
  ConllXDatasetPos.row_loop cm fields cols = inr cols' ->
  length cols' = length cols /\
  length (concat cols') =
    (length (concat cols) +
     length (List.filter (dict_contains cm) fields.*1))%nat.
Proof.
  induction fields as [|[i v] fields IH]; intros cols cols' Hrun.
  - injection Hrun as <-. simpl. split; [done|lia].
  - cbn [fmap list_fmap List.filter fst].
    rewrite dict_contains_get.
    destruct (dict_get cm i) as [d|] eqn:Hget.
    + rewrite (row_loop_mapped _ _ _ _ _ _ Hget) in Hrun.
      rewrite bool_decide_eq_true_2 by by eexists.
      destruct (append_at cols d v) as [e|cols1] eqn:Happ; [done|].
      simpl in Hrun. apply append_at_total in Happ as [Hlen1 Htot1].
      apply IH in Hrun as [Hlen Htot].
      split; [congruence|]. rewrite Htot, Htot1. simpl. lia.
    + rewrite (row_loop_unmapped _ _ _ _ _ Hget) in Hrun.
      rewrite bool_decide_eq_false_2 by by intros [? [=]].
      by apply IH.
Qed.

Lemma sentence_loop_total cm sentence : forall cols cols',
  ConllXDatasetPos.sentence_loop cm sentence cols = inr cols' ->
  length cols' = length cols /\
  length (concat cols') =
    (length (concat cols) +
     length sentence *
     length (List.filter (dict_contains cm) (range 10)))%nat.
Proof.
  induction sentence as [|row sentence IH]; intros cols cols' Hrun.
  - injection Hrun as <-. simpl. split; [done|lia].
  - cbn [ConllXDatasetPos.sentence_loop] in Hrun.
    destruct (ConllXDatasetPos.row_loop cm
                (enumerate (ConllRow.to_list row)) cols)
      as [e|cols1] eqn:Hrow; [done|].
    cbn [bind] in Hrun.
    apply row_loop_total in Hrow as [Hlen1 Htot1].
    rewrite enumerate_row_indices in Htot1.
    change [0; 1; 2; 3; 4; 5; 6; 7; 8; 9] with (range 10) in Htot1.
    apply IH in Hrun as [Hlen Htot].
    split; [congruence|]. rewrite Htot, Htot1. simpl. lia.
Qed.

Lemma concat_replicate_nil {A} n : concat (replicate n (@nil A)) = [].
Proof. induction n as [|n IH]; simpl; [done|apply IH]. Qed.

(** X13: for any mapping, when [_make_example] returns an example it has
    as many columns as the mapping has entries, and the columns hold
    together one value per row and per field index in 0..9 that is a key:
    no value is dropped or added, and a key outside 0..9 brings none. *)
Theorem make_example_keeps_count
    (sentence : list ConllRow.t) (fields : list FieldMapping) (cm : dict)
    (ex : Example) :
  ConllXDatasetPos._make_example sentence fields cm = inr ex ->
  length (Example_data ex) = dict_len cm /\
  length (concat (Example_data ex)) =
    (length sentence *
     length (List.filter (dict_contains cm) (range 10)))%nat.
Proof.
  unfold ConllXDatasetPos._make_example, ConllXDatasetPos.relevant_columns.
  destruct (ConllXDatasetPos.sentence_loop cm sentence
              (replicate (dict_len cm) [])) as [e|cols] eqn:Hrun; [done|].
  intros [= <-]. simpl.
  apply sentence_loop_total in Hrun as [Hlen Htot].
  rewrite length_replicate in Hlen.
  rewrite concat_replicate_nil in Htot. by split.
Qed.

Lemma make_example_keeps_count_witness :
  ConllXDatasetPos._make_example [row_No; row_But] _make_fields
    [(3, 0); (1, 0); (12, 1)] =
    inr (Example_fromlist [["No"; "RB"; "But"; "CC"]; []; []] _make_fields) /\
  length [["No"; "RB"; "But"; "CC"]; []; @nil string] = 3%nat /\
  length (concat [["No"; "RB"; "But"; "CC"]; []; []]) = 4%nat.
Proof.
  split; [reflexivity|].
  apply (make_example_keeps_count [row_No; row_But] _make_fields
           [(3, 0); (1, 0); (12, 1)]
           (Example_fromlist [["No"; "RB"; "But"; "CC"]; []; []]
              _make_fields)).
  reflexivity.
Defined.

(** *** Keys that are not field indices *)

Lemma row_loop_same_lookups cm cm' fields :
  Forall (fun iv => dict_get cm iv.1 = dict_get cm' iv.1) fields ->
  forall cols,
    ConllXDatasetPos.row_loop cm fields cols =
    ConllXDatasetPos.row_loop cm' fields cols.
Proof.
  induction 1 as [|[i v] fields Hi _ IH]; intros cols; [done|].
  simpl in Hi.
  destruct (dict_get cm i) as [d|] eqn:Hget.
  - symmetry in Hi.
    rewrite (row_loop_mapped _ _ _ _ _ _ Hget), (row_loop_mapped _ _ _ _ _ _ Hi).
    destruct (append_at cols d v); simpl; [done|apply IH].
  - symmetry in Hi.
    rewrite (row_loop_unmapped _ _ _ _ _ Hget), (row_loop_unmapped _ _ _ _ _ Hi).
    apply IH.
Qed.

Lemma enumerate_row_index_range row iv :
  iv ∈ enumerate (ConllRow.to_list row) -> 0 <= iv.1 < 10.
Proof.
  intros Hin. apply (list_elem_of_fmap_2 fst) in Hin.
  rewrite enumerate_row_indices in Hin.
  rewrite !elem_of_cons, elem_of_nil in Hin. lia.
Qed.

(** X14: [_make_example] looks the mapping up at the indices 0..9 only and
    counts its entries: two mappings with the same number of entries and
    the same destinations for 0..9 give the same result, whatever keys
    they have outside 0..9. *)
Theorem make_example_reads_keys_0_to_9_only
    (sentence : list ConllRow.t) (fields : list FieldMapping)
    (cm cm' : dict) :
  dict_len cm = dict_len cm' ->
  (forall i, 0 <= i < 10 -> dict_get cm i = dict_get cm' i) ->
  ConllXDatasetPos._make_example sentence fields cm =
  ConllXDatasetPos._make_example sentence fields cm'.
Proof.
  intros Hlen Hget.
  unfold ConllXDatasetPos._make_example, ConllXDatasetPos.relevant_columns.
  rewrite Hlen. generalize (replicate (dict_len cm') (@nil string)).
  induction sentence as [|row sentence IH]; intros cols; [done|].
  cbn [ConllXDatasetPos.sentence_loop bind].
  rewrite (row_loop_same_lookups cm cm').
  - destruct (ConllXDatasetPos.row_loop cm' _ cols) as [e|cols1]; [done|].
    apply IH.
  - apply Forall_forall. intros iv Hin.
    apply Hget. by apply (enumerate_row_index_range row).
Qed.

Lemma make_example_reads_keys_0_to_9_only_witness :
  ConllXDatasetPos._make_example [row_No; row_But] _make_fields
    [(1, 0); (10, 1)] =
  ConllXDatasetPos._make_example [row_No; row_But] _make_fields
    [(-4, 7); (1, 0)].
Proof.
  apply (make_example_reads_keys_0_to_9_only [row_No; row_But] _make_fields
           [(1, 0); (10, 1)] [(-4, 7); (1, 0)]).
  - reflexivity.
  - intros i Hi. simpl.
    destruct (Z.eqb_spec i 1), (Z.eqb_spec i 10), (Z.eqb_spec i (-4));
      try lia; reflexivity.
Defined.

(** *** Negative destinations *)

Lemma dict_get_normalize_from k cm i :
  dict_get (map (fun kv => (kv.1, normalize_destination k kv.2)) cm) i =
  normalize_destination k <$> dict_get cm i.
Proof.
  induction cm as [|[key v] cm IH]; simpl; [done|].
  by destruct (Z.eqb i key).
Qed.

Lemma append_at_normalize cols d v :
  append_at cols (normalize_destination (length cols) d) v =
  append_at cols d v.
Proof.
  unfold append_at, normalize_destination.
  destruct ((- Z.of_nat (length cols) <=? d) && (d <? 0))%Z eqn:Hneg; [|done].
  apply andb_true_iff in Hneg as [Hlow Hhigh].
  unfold list_index. rewrite Hlow, Hhigh.
  apply Z.leb_le in Hlow. apply Z.ltb_lt in Hhigh.
  rewrite (proj2 (Z.leb_le 0 (Z.of_nat (length cols) + d))) by lia.
  rewrite (proj2 (Z.ltb_lt (Z.of_nat (length cols) + d) _)) by lia.
  by rewrite (proj2 (Z.leb_gt 0 d)) by lia.
Qed.

Lemma row_loop_normalize k cm fields : forall cols,
  length cols = k ->
  ConllXDatasetPos.row_loop
    (map (fun kv => (kv.1, normalize_destination k kv.2)) cm) fields cols =
  ConllXDatasetPos.row_loop cm fields cols /\
  forall cols', ConllXDatasetPos.row_loop cm fields cols = inr cols' ->
    length cols' = k.
Proof.
  induction fields as [|[i v] fields IH]; intros cols Hlen.
  - split; [done|]. by intros cols' [= <-].
  - pose proof (dict_get_normalize_from k cm i) as Hnorm.
    destruct (dict_get cm i) as [d|] eqn:Hget; simpl in Hnorm.
    + rewrite (row_loop_mapped _ _ _ _ _ _ Hget), (row_loop_mapped _ _ _ _ _ _ Hnorm).
      rewrite <- Hlen at 1. rewrite append_at_normalize.
      destruct (append_at cols d v) as [e|cols1] eqn:Happ; simpl; [done|].
      apply append_at_total in Happ as [Hlen1 _].
      apply IH. congruence.
    + rewrite (row_loop_unmapped _ _ _ _ _ Hget), (row_loop_unmapped _ _ _ _ _ Hnorm).
      by apply IH.
Qed.

(** X15: a destination d with -k <= d < 0, k the number of entries, is
    taken by [_make_example] as the column k + d, counted from the end as
    Python indexes lists: replacing every such destination by k + d gives
    the same result, exception included. *)
Theorem make_example_negative_destinations
    (sentence : list ConllRow.t) (fields : list FieldMapping) (cm : dict) :
  ConllXDatasetPos._make_example sentence fields (normalize_destinations cm) =
  ConllXDatasetPos._make_example sentence fields cm.
Proof.
  unfold ConllXDatasetPos._make_example, ConllXDatasetPos.relevant_columns.
  assert (dict_len (normalize_destinations cm) = dict_len cm) as ->.
  { unfold dict_len, normalize_destinations. apply length_map. }
  assert (forall cols, length cols = dict_len cm ->
    ConllXDatasetPos.sentence_loop (normalize_destinations cm) sentence cols =
    ConllXDatasetPos.sentence_loop cm sentence cols) as Hloop.
  { unfold normalize_destinations.
    induction sentence as [|row sentence IH]; intros cols Hlen; [done|].
    cbn [ConllXDatasetPos.sentence_loop].
    destruct (row_loop_normalize (dict_len cm) cm
                (enumerate (ConllRow.to_list row)) cols Hlen) as [-> Hlen1].
    destruct (ConllXDatasetPos.row_loop cm _ cols) as [e|cols1]; [done|].
    cbn [bind]. apply IH. by apply Hlen1. }
  rewrite Hloop; [done|]. apply length_replicate.
Qed.

(** *** After validation *)

Lemma validate_ok_invariants cm :
  ConllXDatasetPos._validate_column_map cm = inr tt ->
  keys_in_range cm /\ destinations_unique cm /\ destinations_contiguous cm.
Proof.
  intros Hok.
  destruct (validate_column_map_cases cm)
    as [[_ Hv]|[(_ & _ & Hv)|[(_ & _ & _ & Hv)|(Hk & Hu & Hc & _)]]];
    [congruence..|done].
Qed.

Lemma keys_in_range_at_most_ten cm :
  dict_wf cm -> keys_in_range cm -> (dict_len cm <= 10)%nat.
Proof.
  unfold dict_wf, keys_in_range, dict_len, dict_keys. intros Hwf Hkeys.
  rewrite <- (length_fmap fst cm).
  change 10%nat with (Z.to_nat 10). rewrite <- (length_seqZ 0 10).
  apply submseteq_length, NoDup_submseteq; [done|].
  intros x Hx. rewrite Forall_forall in Hkeys.
  apply elem_of_seqZ. specialize (Hkeys x Hx). lia.
Qed.

(** X16: a dictionary that [_validate_column_map] accepts has at most ten
    entries, and [_make_example] never raises with it: for every sentence
    it returns an example of as many columns as entries, each column as
    long as the sentence. *)
Theorem validated_mapping_is_safe (cm : dict) :
  dict_wf cm ->
  ConllXDatasetPos._validate_column_map cm = inr tt ->
  (dict_len cm <= 10)%nat /\
  forall sentence fields, exists cols,
    ConllXDatasetPos._make_example sentence fields cm =
      inr (Example_fromlist cols fields) /\
    length cols = dict_len cm /\
    Forall (fun col => length col = length sentence) cols.
Proof.
  intros Hwf Hok.
  destruct (validate_ok_invariants cm Hok) as (Hkeys & Huniq & Hcontig).
  split; [by apply keys_in_range_at_most_ten|].
  intros sentence fields.
  destruct (relevant_columns_validated sentence cm Hkeys Huniq Hcontig)
    as (cols & Hrun & Hlen & Hcols).
  exists cols. unfold ConllXDatasetPos._make_example. rewrite Hrun.
  split; [done|]. split; [done|].
  apply Forall_lookup. intros j col Hj.
  pose proof (lookup_lt_Some _ _ _ Hj) as Hlt.
  assert (Z.of_nat j ∈ dict_values cm) as Hd by (apply Hcontig; lia).
  destruct (dict_values_get cm _ Hwf Hd) as [i Hi].
  specialize (Hcols i _ Hi). rewrite Nat2Z.id, Hj in Hcols.
  injection Hcols as ->. apply length_map.
Qed.

Lemma validated_mapping_is_safe_witness :
  (3 <= 10)%nat /\
  forall sentence fields, exists cols,
    ConllXDatasetPos._make_example sentence fields [(3, 1); (1, 0); (7, 2)] =
      inr (Example_fromlist cols fields) /\
    length cols = dict_len [(3, 1); (1, 0); (7, 2)] /\
    Forall (fun col => length col = length sentence) cols.
Proof.
  apply (validated_mapping_is_safe [(3, 1); (1, 0); (7, 2)]).
  - invariant_by_computation.
  - reflexivity.
Defined.

(** X17: the verdict of [_validate_column_map] does not depend on the
    order of the entries of the mapping. *)
Theorem validate_column_map_ignores_order (cm cm' : dict) :
  cm ≡ₚ cm' ->
  ConllXDatasetPos._validate_column_map cm = inr tt <->
  ConllXDatasetPos._validate_column_map cm' = inr tt.
Proof.
  assert (forall cm cm' : dict, cm ≡ₚ cm' ->
    ConllXDatasetPos._validate_column_map cm = inr tt ->
    ConllXDatasetPos._validate_column_map cm' = inr tt) as Hdir.
  { clear. intros cm cm' Hperm Hok.
    destruct (validate_ok_invariants cm Hok) as (Hkeys & Huniq & Hcontig).
    assert (keys_in_range cm') as Hkeys'.
    { unfold keys_in_range, dict_keys in *. by rewrite <- Hperm. }
    assert (destinations_unique cm') as Huniq'.
    { unfold destinations_unique, dict_values in *. by rewrite <- Hperm. }
    assert (destinations_contiguous cm') as Hcontig'.
    { unfold destinations_contiguous, dict_values, dict_len in *.
      intros v. rewrite <- Hperm. apply Hcontig. }
    destruct (validate_column_map_cases cm')
      as [[? _]|[(_ & ? & _)|[(_ & _ & ? & _)|(_ & _ & _ & Hv)]]]; done. }
  intros Hperm. split; apply Hdir; [done|by symmetry].
Qed.

Lemma validate_column_map_ignores_order_witness :
  ConllXDatasetPos._validate_column_map [(3, 1); (1, 0)] = inr tt <->
  ConllXDatasetPos._validate_column_map [(1, 0); (3, 1)] = inr tt.
Proof.
  apply (validate_column_map_ignores_order [(3, 1); (1, 0)] [(1, 0); (3, 1)]).
  apply Permutation_swap.
Defined.

(** ** More on the constructor *)

Lemma sentences_loop_returns fields cm sentences : forall examples result,
  ConllXDatasetPos.sentences_loop fields cm sentences examples = inr result <->
  raised sentences = None /\
  exists new,
    Forall2 (fun sentence example =>
      ConllXDatasetPos._make_example sentence fields cm = inr example)
      (yielded sentences) new /\
    result = examples ++ new.
Proof.
  induction sentences as [|sentence next IH|e]; intros examples result; simpl.
  - split.
    + intros [= <-]. split; [done|]. exists []. split; [constructor|].
      by rewrite app_nil_r.
    + intros (_ & new & Hnew & ->). inversion Hnew; subst.
      by rewrite app_nil_r.
  - destruct (ConllXDatasetPos._make_example sentence fields cm)
      as [e|example] eqn:Hex; simpl.
    + split; [done|]. intros (_ & new & Hnew & _).
      inversion Hnew; subst. congruence.
    + rewrite IH. split.
      * intros (Hnone & new & Hnew & ->). split; [done|].
        exists (example :: new). split; [by constructor|].
        by rewrite <- app_assoc.
      * intros (Hnone & new & Hnew & ->). split; [done|].
        inversion Hnew as [|? example' ? new' Hex' Hnew']; subst.
        exists new'. split; [done|].
        rewrite <- app_assoc. simpl. congruence.
  - split; [done|]. by intros [? _].
Qed.

(** X18: the constructor returns a dataset exactly when the file can be
    opened, no line makes the generator raise, and [_make_example] returns
    an example for every yielded sentence; the dataset is then built from
    these examples, one per yielded sentence, in file order. *)
Theorem init_returns_dataset_iff (fs : filesystem) (path : string)
    (fields : list FieldMapping) (column_mapping : option dict)
    (filter_pred : option (Example -> bool)) (dataset : Dataset) :
  (ConllXDatasetPos.__init__ fs path fields column_mapping filter_pred).1
    = inr dataset <->
  exists input_file examples,
    fs path = Some input_file /\
    raised (_iterate_conll_sentences input_file) = None /\
    Forall2 (fun sentence example =>
      ConllXDatasetPos._make_example sentence fields
        (default _CONLL_POS_MAPPING column_mapping) = inr example)
      (yielded (_iterate_conll_sentences input_file)) examples /\
    dataset = Dataset_init examples fields filter_pred.
Proof.
  unfold ConllXDatasetPos.__init__.
  destruct (fs path) as [input_file|]; simpl.
  - destruct (ConllXDatasetPos.sentences_loop fields
                (default _CONLL_POS_MAPPING column_mapping)
                (_iterate_conll_sentences input_file) [])
      as [e|examples] eqn:Hloop; simpl.
    + split; [done|].
      intros (file & examples & [= <-] & Hnone & Hex & _).
      assert (ConllXDatasetPos.sentences_loop fields
                (default _CONLL_POS_MAPPING column_mapping)
                (_iterate_conll_sentences input_file) [] = inr examples)
        as Hloop'.
      { apply sentences_loop_returns. split; [done|]. by exists examples. }
      congruence.
    + apply sentences_loop_returns in Hloop as (Hnone & new & Hnew & ->).
      simpl. split.
      * intros [= <-]. by exists input_file, new.
      * intros (file & examples & [= <-] & _ & Hex & ->).
        do 2 f_equal.
        clear Hnone. revert examples Hex.
        induction Hnew as [|s ex ss new Hs _ IH]; intros examples Hex;
          inversion Hex; subst; [done|].
        f_equal; [congruence|by apply IH].
  - split; [done|]. by intros (file & ? & [=] & _).
Qed.

Lemma init_returns_dataset_iff_witness :
  (ConllXDatasetPos.__init__ (fun _ => Some [line_But; NEWLINE]) "tmp"
     _make_fields (Some [(3, 0)]) None).1 =
  inr (Dataset_init [Example_fromlist [["CC"]] _make_fields] _make_fields None).
Proof.
  apply (proj2 (init_returns_dataset_iff
                  (fun _ => Some [line_But; NEWLINE]) "tmp" _make_fields
                  (Some [(3, 0)]) None
                  (Dataset_init [Example_fromlist [["CC"]] _make_fields]
                     _make_fields None))).
  exists [line_But; NEWLINE], [Example_fromlist [["CC"]] _make_fields].
  split; [reflexivity|]. split; [reflexivity|]. split; [|reflexivity].
  constructor; [reflexivity|constructor].
Defined.

Lemma make_example_default sentence fields :
  ConllXDatasetPos._make_example sentence fields _CONLL_POS_MAPPING =
  inr (Example_fromlist
         [map ConllRow.form sentence; map ConllRow.upos sentence] fields).
Proof.
  unfold ConllXDatasetPos._make_example, ConllXDatasetPos.relevant_columns.
  change (replicate (dict_len _CONLL_POS_MAPPING) []) with [@nil string; []].
  by rewrite sentence_loop_default.
Qed.

Lemma sentences_loop_map fields cm (g : list ConllRow.t -> Example) sentences :
  (forall sentence,
     ConllXDatasetPos._make_example sentence fields cm = inr (g sentence)) ->
  raised sentences = None ->
  forall examples,
    ConllXDatasetPos.sentences_loop fields cm sentences examples =
    inr (examples ++ map g (yielded sentences)).
Proof.
  intros Hg. induction sentences as [|sentence next IH|e]; simpl;
    intros Hnone examples.
  - by rewrite app_nil_r.
  - rewrite Hg. simpl. rewrite (IH Hnone). by rewrite <- app_assoc.
  - done.
Qed.

(** X19: with the default mapping, on a readable file without malformed
    line, the constructor opens and closes the file and returns the
    dataset built from one example per yielded sentence, in file order,
    each holding the forms of the sentence in column 0 and its upos tags
    in column 1. *)
Theorem init_default_mapping_dataset (fs : filesystem) (path : string)
    (fields : list FieldMapping) (filter_pred : option (Example -> bool))
    (input_file : list string) :
  fs path = Some input_file ->
  Forall (fun line => ~ malformed line) input_file ->
  ConllXDatasetPos.__init__ fs path fields None filter_pred =
  (inr (Dataset_init
          (map (fun sentence =>
             Example_fromlist
               [map ConllRow.form sentence; map ConllRow.upos sentence] fields)
             (yielded (_iterate_conll_sentences input_file)))
          fields filter_pred),
   [Opened path; Closed path]).
Proof.
  intros Hopen Hfile. unfold ConllXDatasetPos.__init__. rewrite Hopen.
  cbn [default].
  rewrite (sentences_loop_map fields _CONLL_POS_MAPPING
             (fun sentence => Example_fromlist
                [map ConllRow.form sentence; map ConllRow.upos sentence]
                fields)).
  - done.
  - intros sentence. apply make_example_default.
  - by apply iterate_rows_raised_None.
Qed.

Lemma init_default_mapping_dataset_witness :
  ConllXDatasetPos.__init__ (fun _ => Some TEMPORARY_CONTENT) "tmp"
    _make_fields None None =
  (inr (Dataset_init
          (map (fun sentence =>
             Example_fromlist
               [map ConllRow.form sentence; map ConllRow.upos sentence]
               _make_fields)
             (yielded (_iterate_conll_sentences TEMPORARY_CONTENT)))
          _make_fields None),
   [Opened "tmp"; Closed "tmp"]).
Proof.
  apply (init_default_mapping_dataset (fun _ => Some TEMPORARY_CONTENT) "tmp"
           _make_fields None TEMPORARY_CONTENT).
  - reflexivity.
  - repeat constructor; intros [Hb Hlen]; vm_compute in Hb, Hlen; congruence.
Defined.

(** ** The default mapping *)

(** C7: without a mapping from the caller the constructor uses
    [_CONLL_POS_MAPPING], which sends FORM to destination 0 and UPOS to
    destination 1; applied to a sentence it gives the example whose column
    0 is the list of the forms and whose column 1 is the list of the upos
    tags, both in token order.  So the constructor called without a
    mapping on a readable file without malformed line returns the dataset
    of these examples, one per yielded sentence, in file order. *)
Theorem default_mapping_gives_forms_and_tags :
  (forall fs path fields filter_pred,
     ConllXDatasetPos.__init__ fs path fields None filter_pred =
     ConllXDatasetPos.__init__ fs path fields (Some _CONLL_POS_MAPPING)
       filter_pred) /\
  dict_get _CONLL_POS_MAPPING (ConllField_value FORM) = Some 0 /\
  dict_get _CONLL_POS_MAPPING (ConllField_value UPOS) = Some 1 /\
  dict_keys _CONLL_POS_MAPPING = [ConllField_value FORM; ConllField_value UPOS] /\
  (forall sentence fields,
     ConllXDatasetPos._make_example sentence fields _CONLL_POS_MAPPING =
     inr (Example_fromlist
            [map ConllRow.form sentence; map ConllRow.upos sentence] fields)) /\
  (forall (fs : filesystem) path fields filter_pred input_file,
     fs path = Some input_file ->
     Forall (fun line => ~ malformed line) input_file ->
     (ConllXDatasetPos.__init__ fs path fields None filter_pred).1 =
     inr (Dataset_init
            (map (fun sentence =>
               Example_fromlist
                 [map ConllRow.form sentence; map ConllRow.upos sentence]
                 fields)
               (yielded (_iterate_conll_sentences input_file)))
            fields filter_pred)).
Proof.
  split; [done|]. split; [done|]. split; [done|]. split; [done|].
  split.
  - intros sentence fields.
    unfold ConllXDatasetPos._make_example, ConllXDatasetPos.relevant_columns.
    change (replicate (dict_len _CONLL_POS_MAPPING) []) with [@nil string; []].
    by rewrite sentence_loop_default.
  - intros fs path fields filter_pred input_file Hopen Hfile.
    unfold ConllXDatasetPos.__init__. rewrite Hopen. cbn [default fst].
    rewrite (sentences_loop_map fields _CONLL_POS_MAPPING
               (fun sentence => Example_fromlist
                  [map ConllRow.form sentence; map ConllRow.upos sentence]
                  fields)).
    + done.
    + intros sentence. apply make_example_default.
    + by apply iterate_rows_raised_None.
Qed.

Lemma default_mapping_gives_forms_and_tags_witness :
  (ConllXDatasetPos.__init__
     (fun _ => Some [line_No; line_Monday; NEWLINE; line_But]) "tmp"
     _make_fields None None).1 =
  inr (mkDataset
         [Example_fromlist [["No"; "Monday"]; ["RB"; "NNP"]] _make_fields;
          Example_fromlist [["But"]; ["CC"]] _make_fields]
         _make_fields).
Proof.
  apply (proj2 (proj2 (proj2 (proj2 (proj2
           default_mapping_gives_forms_and_tags))))
           (fun _ => Some [line_No; line_Monday; NEWLINE; line_But]) "tmp"
           _make_fields None [line_No; line_Monday; NEWLINE; line_But]).
  - reflexivity.
  - repeat constructor; intros [Hb Hlen]; vm_compute in Hb, Hlen; congruence.
Defined.
